(** * Paralympics REST API: a shallow embedding of [paralympics/routes.py]

    The route handlers of [routes.py] are embedded as computations in a
    small state-and-exception monad over a relational store.  The objects the
    handlers import ([db], the [Region] and [Event] models, the two schema
    classes) are modelled only as far as the handlers use them. *)

From stdpp Require Import gmap strings list fin_maps pretty.

Local Open Scope Z_scope.

(** ** JSON scalars, rows and model declarations *)

Inductive value :=
| VNull
| VStr (s : string)
| VInt (n : Z).

#[global] Instance value_eq_dec : EqDecision value.
Proof. solve_decision. Defined.

(** A JSON object of scalars; also the column values of one table row and the
    attribute dictionary of one ORM instance. *)
Abbreviation row := (gmap string value).

(** [getattr(instance, c)]: a column that was never set reads [None]. *)
Definition attr (r : row) (c : string) : value := default VNull (r !! c).

(** Python's [str()] on a scalar, as used by the f-strings of the handlers. *)
Definition str (v : value) : string :=
  match v with
  | VNull => "None"
  | VStr s => s
  | VInt n => pretty n
  end.

(** The two mapped classes imported from [paralympics.models]. *)
Inductive entity := Region | Event.

#[global] Instance entity_eq_dec : EqDecision entity.
Proof. solve_decision. Defined.

(** Primary keys, as the handlers name them: [filter_by(NOC=code)],
    [region.NOC], [filter_by(id=event_id)], [event.id]. *)
Definition pk (e : entity) : string :=
  match e with
  | Region => "NOC"
  | Event => "id"
  end.

(** The event key is generated by the store when it is left unset; a region's
    code never is. *)
Definition autoincrement (e : entity) : bool :=
  match e with
  | Region => false
  | Event => true
  end.

(** One declared field of a schema class: the column it is bound to and the
    marshmallow options that decide how [load] treats it. *)
Record field := Field {
  fname : string;
  deserialize : value -> string + value;
  required : bool;
  allow_none : bool;
  load_default : option value
}.

(** [fields.String]: only strings are accepted. *)
Definition String_deserialize (v : value) : string + value :=
  match v with
  | VStr s => inr (VStr s)
  | _ => inl "Not a valid string."
  end.

(** [fields.Integer(strict=True)]: only integers are accepted. *)
Definition Integer_deserialize (v : value) : string + value :=
  match v with
  | VInt n => inr (VInt n)
  | _ => inl "Not a valid integer."
  end.

(** ** Exceptions and responses *)

Abbreviation messages := (gmap string (list string)).

Inductive exn :=
| ValidationError (msgs : messages)
| NoResultFound
| MultipleResultsFound
| InvalidRequestError
| IntegrityError
| OperationalError
| HTTPException (code : Z) (description : string).

(** [isinstance(e, SQLAlchemyError)]: [NoResultFound] and
    [MultipleResultsFound] derive from [InvalidRequestError], which derives
    from [SQLAlchemyError], as do the DBAPI errors. *)
Definition is_SQLAlchemyError (e : exn) : bool :=
  match e with
  | NoResultFound | MultipleResultsFound | InvalidRequestError
  | IntegrityError | OperationalError => true
  | ValidationError _ | HTTPException _ _ => false
  end.

(** [str(e)] for the exception [scalar_one()] raises on an empty result. *)
Definition NoResultFound_str : string :=
  "No row was found when one was required".

Inductive body :=
| JObject (o : row)
| JArray (l : list row)
| JErrors (m : messages)
| Html (s : string).

Record response := Response { status : Z; payload : body }.

Definition message (s : string) : body := JObject {[ "message" := VStr s ]}.

(** ** The store and the session *)

(** Modelled from the spec: [paralympics/models.py] is not among the
    sources.  Section 3 has every event refer to a region by its [NOC];
    section 9 leaves open what becomes of the events of a region that is
    deleted.  The four outcomes it can have are a setting of the store: the
    events are left as they are, the delete is refused, the events lose their
    reference, or the events are deleted with the region. *)
Inductive referential_action :=
| NoAction
| Restrict
| SetNull
| Cascade.

#[global] Instance referential_action_eq_dec : EqDecision referential_action.
Proof. solve_decision. Defined.

Record database := Database {
  regions : list row;
  events : list row;
  online : bool;
  ondelete : referential_action
}.

Definition table (e : entity) (d : database) : list row :=
  match e with
  | Region => regions d
  | Event => events d
  end.

Definition set_table (e : entity) (t : list row) (d : database) : database :=
  match e with
  | Region => {| regions := t; events := events d; online := online d;
                 ondelete := ondelete d |}
  | Event => {| regions := regions d; events := t; online := online d;
                ondelete := ondelete d |}
  end.

(** An ORM object.  [ident] is the primary key under which the object was
    read from the store ([None] for an object built by a schema and not yet
    stored); [attrs] are its current attribute values. *)
Record instance := Instance {
  kind : entity;
  ident : option value;
  attrs : row
}.

Definition persistent (e : entity) (r : row) : instance :=
  {| kind := e; ident := Some (attr r (pk e)); attrs := r |}.

Inductive change :=
| Save (i : instance)
| Remove (i : instance).

(** What a handler did to the session, in order. *)
Inductive op :=
| OpSelect (e : entity)
| OpAdd
| OpDelete
| OpCommit.

#[global] Instance op_eq_dec : EqDecision op.
Proof. solve_decision. Defined.

Record world := World {
  store : database;
  pending : list change;
  trace : list op
}.

Definition keys (e : entity) (t : list row) : list value :=
  (λ r, attr r (pk e)) <$> t.

Definition int_key (v : value) : Z :=
  match v with
  | VInt n => n
  | _ => 0
  end.

(** The key the store generates: one more than the largest key in use. *)
Definition next_id (e : entity) (t : list row) : Z :=
  1 + foldr Z.max 0 (int_key <$> keys e t).

(** INSERT of one row; the primary key must be set (or generated) and new. *)
Definition insert_row (e : entity) (r : row) (t : list row)
  : option (list row * row) :=
  match attr r (pk e) with
  | VNull =>
      if autoincrement e
      then let r' := <[pk e := VInt (next_id e t)]> r in Some (t ++ [r'], r')
      else None
  | k => if decide (k ∈ keys e t) then None else Some (t ++ [r], r)
  end.

(** The table after UPDATE ... WHERE pk = k0 has written the row [r]. *)
Definition replace_row (e : entity) (k0 : value) (r : row) (t : list row)
  : list row :=
  (λ r0, if decide (attr r0 (pk e) = k0) then r else r0) <$> t.

(** UPDATE ... WHERE pk = k0; the new key must be set and must not collide
    with another row. *)
Definition update_row (e : entity) (k0 : value) (r : row) (t : list row)
  : option (list row * row) :=
  let k := attr r (pk e) in
  if decide (k = VNull) then None
  else if decide (k ≠ k0 ∧ k ∈ keys e t) then None
  else Some (replace_row e k0 r t, r).

(** SELECT ... WHERE col = v. *)
Definition matching (col : string) (v : value) (t : list row) : list row :=
  filter (λ r, attr r col = v) t.
Arguments matching : simpl never.

(** DELETE ... WHERE pk = k0. *)
Definition delete_row (e : entity) (k0 : value) (t : list row) : list row :=
  filter (λ r0, attr r0 (pk e) ≠ k0) t.

(** The events table once the region with key [k] is to be deleted, under
    each setting of the store; [None]: the delete is refused. *)
Definition orphan (a : referential_action) (k : value) (es : list row)
  : option (list row) :=
  match a with
  | NoAction => Some es
  | Restrict => if decide (matching "NOC" k es = []) then Some es else None
  | SetNull =>
      Some ((λ ev, if decide (attr ev "NOC" = k)
                   then <["NOC" := VNull]> ev else ev) <$> es)
  | Cascade => Some (filter (λ ev, attr ev "NOC" ≠ k) es)
  end.

(** What the delete of the row with key [k0] does to the rows that refer to
    it: events refer to regions, nothing refers to an event. *)
Definition release (e : entity) (k0 : value) (d : database)
  : option database :=
  match e with
  | Region =>
      es ← orphan (ondelete d) k0 (events d);
      Some (set_table Event es d)
  | Event => Some d
  end.

(** Flushing one pending change; the second component is the stored state of
    a saved object. *)
Definition flush (c : change) (d : database)
  : option (database * option row) :=
  match c with
  | Save i =>
      let e := kind i in
      '(t, r) ← match ident i with
                | None => insert_row e (attrs i) (table e d)
                | Some k0 => update_row e k0 (attrs i) (table e d)
                end;
      Some (set_table e t d, Some r)
  | Remove i =>
      k0 ← ident i;
      d1 ← release (kind i) k0 d;
      Some (set_table (kind i) (delete_row (kind i) k0 (table (kind i) d1)) d1,
            None)
  end.

Fixpoint flush_all (cs : list change) (d : database)
  : option (database * list row) :=
  match cs with
  | [] => Some (d, [])
  | c :: cs' =>
      '(d1, r) ← flush c d;
      '(d2, rs) ← flush_all cs' d1;
      Some (d2, from_option (λ x, [x]) [] r ++ rs)
  end.

(** ** The handler monad: session state and Python exceptions *)

Inductive result (A : Type) :=
| Ok (a : A)
| Raise (e : exn).
Arguments Ok {A} a.
Arguments Raise {A} e.

Definition M (A : Type) : Type := world -> result A * world.

Definition ret {A} (a : A) : M A := λ w, (Ok a, w).

Definition raise {A} (e : exn) : M A := λ w, (Raise e, w).

Definition bind {A B} (m : M A) (k : A -> M B) : M B :=
  λ w, match m w with
       | (Ok a, w') => k a w'
       | (Raise e, w') => (Raise e, w')
       end.

Notation "'do' x <- m ; k" := (bind m (λ x, k))
  (at level 10, x name, m at level 100, k at level 200,
   format "'[v' 'do'  x  <-  m ; '/' k ']'").
Notation "'do_' m ; k" := (bind m (λ _, k))
  (at level 10, m at level 100, k at level 200,
   format "'[v' 'do_'  m ; '/' k ']'").

(** [try: m  except ...: h e]. *)
Definition try_except {A} (m : M A) (h : exn -> M A) : M A :=
  λ w, match m w with
       | (Ok a, w') => (Ok a, w')
       | (Raise e, w') => h e w'
       end.

Definition log (o : op) (w : world) : world :=
  {| store := store w; pending := pending w; trace := trace w ++ [o] |}.

(** [flask.abort(code, description=...)]. *)
Definition abort {A} (code : Z) (description : string) : M A :=
  raise (HTTPException code description).

(** ** Schema loading and dumping *)

(** [Field.deserialize] on the raw value of one field ([None]: the key is
    missing from the input).  The outcome is the error messages of the field,
    or the value to store ([None]: nothing is stored). *)
Definition field_deserialize (f : field) (raw : option value)
  : list string + option value :=
  match raw with
  | None =>
      if required f then inl ["Missing data for required field."]
      else inr (load_default f)
  | Some VNull =>
      if allow_none f then inr (Some VNull)
      else inl ["Field may not be null."]
  | Some v =>
      match deserialize f v with
      | inl msg => inl [msg]
      | inr v' => inr (Some v')
      end
  end.
Arguments field_deserialize : simpl never.

(** The loop of [Schema._deserialize] over the declared fields: with
    [partial=True] a missing key is skipped before the field is consulted. *)
Fixpoint load_fields (partial : bool) (fs : list field) (data : row)
  : messages * row :=
  match fs with
  | [] => (∅, ∅)
  | f :: fs' =>
      let '(errs, out) := load_fields partial fs' data in
      match data !! fname f with
      | None =>
          if partial then (errs, out)
          else match field_deserialize f None with
               | inl msgs => (<[fname f := msgs]> errs, out)
               | inr None => (errs, out)
               | inr (Some v) => (errs, <[fname f := v]> out)
               end
      | Some raw =>
          match field_deserialize f (Some raw) with
          | inl msgs => (<[fname f := msgs]> errs, out)
          | inr None => (errs, out)
          | inr (Some v) => (errs, <[fname f := v]> out)
          end
      end
  end.

(** Keys of the input that no field declares ([unknown=RAISE]). *)
Definition unknown_errors (fs : list field) (data : row) : messages :=
  (λ _, ["Unknown field."]) <$> filter (λ kv, kv.1 ∉ fname <$> fs) data.

(** Validation and deserialisation of a request body: the loaded values, or
    the error messages by field. *)
Definition validate (partial : bool) (fs : list field) (data : row)
  : messages + row :=
  let '(errs, out) := load_fields partial fs data in
  let errs' := errs ∪ unknown_errors fs data in
  if decide (errs' = ∅) then inr out else inl errs'.

(** [Schema.dump(obj)]: every declared field with the object's attribute. *)
Definition dump (fs : list field) (r : row) : row :=
  list_to_map ((λ f, (fname f, attr r (fname f))) <$> fs).

(** [session.query(E).filter_by(pk=k).first()], as run by the schema.  The
    query is the schema's own and not a call of the handler, so it is not
    entered in the trace; no handler has a change pending when it loads. *)
Definition query_first (e : entity) (k : value) : M (option instance) :=
  λ w, if online (store w)
       then (Ok (persistent e <$> head (matching (pk e) k (table e (store w)))),
             w)
       else (Raise OperationalError, w).

(** [get_instance(data)] of a schema that loads model objects (the handlers
    pass [instance=] to [load] and hand its result to [db.session.add]): the
    stored object whose primary key is the one in the loaded data, if the
    data has one. *)
Definition get_instance (e : entity) (data : row) : M (option instance) :=
  match attr data (pk e) with
  | VNull => ret None
  | k => query_first e k
  end.

(** The post-load step of such a schema: [self.instance or
    self.get_instance(data)].  On the instance passed, or else on the stored
    object found under the loaded key, each loaded value is set ([setattr]
    per loaded key) and the other attributes are left alone; with neither, a
    new object is built from the loaded values. *)
Definition make_instance (e : entity) (inst : option instance) (data : row)
  : M instance :=
  do found <- match inst with
              | Some i => ret (Some i)
              | None => get_instance e data
              end;
  ret match found with
      | Some i =>
          {| kind := kind i; ident := ident i; attrs := data ∪ attrs i |}
      | None => {| kind := e; ident := None; attrs := data |}
      end.

Definition load (e : entity) (fs : list field) (data : row)
    (inst : option instance) (partial : bool) : M instance :=
  match validate partial fs data with
  | inl msgs => raise (ValidationError msgs)
  | inr out => make_instance e inst out
  end.

(** ** Session operations *)

(** [db.session.execute(db.select(E))].scalars() *)
Definition select_all (e : entity) : M (list row) :=
  λ w, if online (store w) then (Ok (table e (store w)), log (OpSelect e) w)
       else (Raise OperationalError, w).

(** [db.session.execute(db.select(E).filter_by(col=v))]: building the
    statement fails when [E] has no attribute [col]. *)
Definition select_by (cols : list string) (e : entity) (col : string)
    (v : value) : M (list row) :=
  λ w, if decide (col ∈ cols) then
         if online (store w)
         then (Ok (matching col v (table e (store w))), log (OpSelect e) w)
         else (Raise OperationalError, w)
       else (Raise InvalidRequestError, w).

Definition scalar_one (e : entity) (rows : list row) : M instance :=
  match rows with
  | [] => raise NoResultFound
  | [r] => ret (persistent e r)
  | _ => raise MultipleResultsFound
  end.

Definition scalar_one_or_none (e : entity) (rows : list row)
  : M (option instance) :=
  match rows with
  | [] => ret None
  | [r] => ret (Some (persistent e r))
  | _ => raise MultipleResultsFound
  end.

(** [db.session.add(obj)] *)
Definition session_add (i : instance) : M unit :=
  λ w, (Ok tt, {| store := store w; pending := pending w ++ [Save i];
                  trace := trace w ++ [OpAdd] |}).

(** [db.session.delete(obj)] *)
Definition session_delete (i : instance) : M unit :=
  λ w, (Ok tt, {| store := store w; pending := pending w ++ [Remove i];
                  trace := trace w ++ [OpDelete] |}).

(** [db.session.commit()]: all pending changes are written, or none is.  The
    result is the stored state of the saved objects, which is what their
    attributes read after the commit. *)
Definition session_commit : M (list row) :=
  λ w, if online (store w) then
         match flush_all (pending w) (store w) with
         | Some (d, rs) =>
             (Ok rs, {| store := d; pending := [];
                        trace := trace w ++ [OpCommit] |})
         | None =>
             (Raise IntegrityError,
              {| store := store w; pending := []; trace := trace w |})
         end
       else (Raise OperationalError, w).

(** An attribute of the first saved object, read after the commit. *)
Definition saved_attr (rs : list row) (c : string) : value :=
  match rs with
  | r :: _ => attr r c
  | [] => VNull
  end.

(** ** Flask's dispatch of a handler's outcome *)

(** [@app.errorhandler(ValidationError)] *)
Definition register_validation_error (msgs : messages) : response :=
  {| status := 400; payload := JErrors msgs |}.

(** [@app.errorhandler(NoResultFound)]: [jsonify(error=str(e)), 404] *)
Definition resource_not_found (e_str : string) : response :=
  {| status := 404; payload := JObject {[ "error" := VStr e_str ]} |}.

(** The handlers registered with [@app.errorhandler], by exception class. *)
Definition errorhandler (e : exn) : option response :=
  match e with
  | ValidationError msgs => Some (register_validation_error msgs)
  | NoResultFound => Some (resource_not_found NoResultFound_str)
  | _ => None
  end.

(** An exception leaving a view goes to the handler registered for its class;
    without one, an [HTTPException] is its own response and anything else is
    a 500. *)
Definition handle_exception (e : exn) : response :=
  match errorhandler e with
  | Some resp => resp
  | None =>
      match e with
      | HTTPException code description =>
          {| status := code; payload := Html description |}
      | _ => {| status := 500; payload := Html "Internal Server Error" |}
      end
  end.

Inductive method := PUT | PATCH.

(** One request: the view runs in a fresh session over the store; what the
    session did not commit is dropped when the request ends. *)
Definition serve (view : M response) (d : database)
  : response * database * list op :=
  let '(r, w) := view {| store := d; pending := []; trace := [] |} in
  (match r with Ok resp => resp | Raise e => handle_exception e end,
   store w, trace w).

Definition response_of (x : response * database * list op) : response :=
  x.1.1.
Definition store_of (x : response * database * list op) : database :=
  x.1.2.
Definition trace_of (x : response * database * list op) : list op :=
  x.2.

(** ** The route handlers *)

Section Routes.

(** The field declarations of the schema classes [RegionSchema] and
    [EventSchema] ([paralympics/schemas.py]); each field is bound to the
    column of the model of the same name.  A model has these columns and its
    primary key. *)
Variable schema : entity -> list field.

Local Abbreviation region_schema := (schema Region).
Local Abbreviation event_schema := (schema Event).

Definition columns (e : entity) : list string :=
  pk e :: (fname <$> schema e).

Definition filter_by (e : entity) (col : string) (v : value)
  : M (list row) :=
  select_by (columns e) e col v.

Definition get_regions : M response :=
  try_except
    (do all_regions <- select_all Region;
     ret {| status := 200;
            payload := JArray (dump region_schema <$> all_regions) |})
    (λ e, if is_SQLAlchemyError e
          then abort 404 "Region not found."
          else raise e).

Definition get_region (code : string) : M response :=
  do rows <- filter_by Region "NOC" (VStr code);
  do region <- scalar_one Region rows;
  ret {| status := 200;
         payload := JObject (dump region_schema (attrs region)) |}.

Definition get_events : M response :=
  do all_events <- select_all Event;
  ret {| status := 200;
         payload := JArray (dump event_schema <$> all_events) |}.

Definition get_event (event_id : Z) : M response :=
  do rows <- filter_by Event "id" (VInt event_id);
  do event <- scalar_one Event rows;
  ret {| status := 200;
         payload := JObject (dump event_schema (attrs event)) |}.

Definition add_event (ev_json : row) : M response :=
  do event <- load Event event_schema ev_json None false;
  do_ session_add event;
  do saved <- session_commit;
  ret {| status := 201;
         payload := message ("Event added with id= "
                             +:+ str (saved_attr saved "id")) |}.

Definition add_region (json_data : row) : M response :=
  do region <- load Region region_schema json_data None false;
  do_ session_add region;
  do saved <- session_commit;
  ret {| status := 201;
         payload := message ("Region added with NOC= "
                             +:+ str (saved_attr saved "NOC")) |}.

Definition delete_event (event_id : Z) : M response :=
  do rows <- filter_by Event "id" (VInt event_id);
  do event <- scalar_one Event rows;
  do_ session_delete event;
  do_ session_commit;
  ret {| status := 200;
         payload := message ("Event " +:+ pretty event_id
                             +:+ " deleted") |}.

Definition delete_region (noc_code : string) : M response :=
  do rows <- filter_by Region "NOC" (VStr noc_code);
  do region <- scalar_one Region rows;
  do_ session_delete region;
  do_ session_commit;
  ret {| status := 200;
         payload := message ("Region " +:+ noc_code +:+ " deleted") |}.

Definition event_update (event_id : Z) (event_json : row) : M response :=
  do rows <- filter_by Event "event_id" (VInt event_id);
  do existing_event <- scalar_one_or_none Event rows;
  do event_updated <- load Event event_schema event_json existing_event true;
  do_ session_add event_updated;
  do_ session_commit;
  do rows' <- filter_by Event "event_id" (VInt event_id);
  do updated_event <- scalar_one_or_none Event rows';
  ret {| status := 200;
         payload := JObject (from_option (dump event_schema ∘ attrs) ∅
                               updated_event) |}.

(** The tail of [region_update] shared by PATCH and by PUT on an existing
    region. *)
Definition region_commit (noc_code : string) (r : instance) : M response :=
  do_ session_add r;
  do_ session_commit;
  ret {| status := 200;
         payload := message ("Region " +:+ noc_code +:+ " updated") |}.

Definition region_update (m : method) (noc_code : string)
    (region_json : row) : M response :=
  do rows <- filter_by Region "NOC" (VStr noc_code);
  do existing_region <- scalar_one_or_none Region rows;
  match m with
  | PATCH =>
      do r <- load Region region_schema region_json existing_region true;
      region_commit noc_code r
  | PUT =>
      match existing_region with
      | Some _ =>
          do checked <-
            try_except
              (do r <- load Region region_schema region_json existing_region
                         false;
               ret (inr r))
              (λ e, match e with
                    | ValidationError msgs =>
                        ret (inl {| status := 400; payload := JErrors msgs |})
                    | _ => raise e
                    end);
          match checked with
          | inl resp => ret resp
          | inr r => region_commit noc_code r
          end
      | None =>
          try_except
            (do_ load Region region_schema region_json None false;
             ret {| status := 200;
                    payload := message ("Region added with NOC= "
                                        +:+ noc_code) |})
            (λ e, match e with
                  | ValidationError msgs =>
                      ret {| status := 400; payload := JErrors msgs |}
                  | _ => raise e
                  end)
      end
  end.

End Routes.

(** ** A concrete declaration of the two schemas *)

(** Modelled from the spec: [paralympics/schemas.py] and
    [paralympics/models.py] are not among the sources.  Section 3 gives a
    region a code [NOC], a name and notes; the example of section 8 posts
    [NOC] and [region] only, so [notes] is optional. *)
Definition RegionFields : list field :=
  [ Field "NOC" String_deserialize true false None;
    Field "region" String_deserialize true false None;
    Field "notes" String_deserialize false true None ].

(** Modelled from the spec: section 3 gives an event a generated integer
    [id], the code [NOC] of its region and details such as a name. *)
Definition EventFields : list field :=
  [ Field "id" Integer_deserialize false false None;
    Field "NOC" String_deserialize true false None;
    Field "name" String_deserialize false true None ].

Definition Fields (e : entity) : list field :=
  match e with
  | Region => RegionFields
  | Event => EventFields
  end.

Definition GBR : row :=
  {[ "NOC" := VStr "GBR"; "region" := VStr "Great Britain";
     "notes" := VStr "London 2012" ]}.

Definition FRA : row :=
  {[ "NOC" := VStr "FRA"; "region" := VStr "France"; "notes" := VNull ]}.

Definition Games : row :=
  {[ "id" := VInt 1; "NOC" := VStr "GBR"; "name" := VStr "Stoke" ]}.

Definition ZZZ_json : row :=
  {[ "NOC" := VStr "ZZZ"; "region" := VStr "Zedland" ]}.

Definition GBR_json : row :=
  {[ "NOC" := VStr "GBR"; "region" := VStr "United Kingdom" ]}.

Definition Zed_json : row := {[ "region" := VStr "Zedland" ]}.

Definition name_json : row := {[ "region" := VStr "United Kingdom" ]}.

Definition rekey_json : row := {[ "NOC" := VStr "FRA" ]}.

Definition bad_json : row := {[ "region" := VInt 3 ]}.

(** A declaration of the event schema in which the attribute that
    [event_update] filters by exists. *)
Definition FieldsWithEventId (e : entity) : list field :=
  match e with
  | Region => RegionFields
  | Event => Field "event_id" Integer_deserialize false true None
             :: EventFields
  end.

Definition Games' : row :=
  {[ "id" := VInt 1; "event_id" := VInt 7; "NOC" := VStr "GBR";
     "name" := VStr "Stoke" ]}.

Definition db0 : database :=
  {| regions := [GBR; FRA]; events := [Games]; online := true;
     ondelete := Restrict |}.

Definition offline (d : database) : database :=
  {| regions := regions d; events := events d; online := false;
     ondelete := ondelete d |}.

(** [partial=True] is passed for PATCH only. *)
Definition partial_of (m : method) : bool :=
  match m with
  | PATCH => true
  | PUT => false
  end.

(** ** Mutating calls and what their session traces show *)

Inductive mutation :=
| PostRegion (json_data : row)
| PostEvent (ev_json : row)
| PutRegion (noc_code : string) (region_json : row)
| PatchRegion (noc_code : string) (region_json : row)
| PatchEvent (event_id : Z) (event_json : row)
| DeleteRegion (noc_code : string)
| DeleteEvent (event_id : Z).

(** The routing table for the mutating methods. *)
Definition view (schema : entity -> list field) (m : mutation) : M response :=
  match m with
  | PostRegion json_data => add_region schema json_data
  | PostEvent ev_json => add_event schema ev_json
  | PutRegion noc_code region_json =>
      region_update schema PUT noc_code region_json
  | PatchRegion noc_code region_json =>
      region_update schema PATCH noc_code region_json
  | PatchEvent event_id event_json => event_update schema event_id event_json
  | DeleteRegion noc_code => delete_region schema noc_code
  | DeleteEvent event_id => delete_event schema event_id
  end.

Definition success (r : response) : Prop := 200 ≤ status r < 300.

(** The session committed, and nothing was added or deleted after its last
    commit. *)
Fixpoint committed_from (dirty done : bool) (tr : list op) : bool :=
  match tr with
  | [] => done && negb dirty
  | OpCommit :: tr' => committed_from false true tr'
  | OpAdd :: tr' | OpDelete :: tr' => committed_from true done tr'
  | OpSelect _ :: tr' => committed_from dirty done tr'
  end.

Definition committed (tr : list op) : bool := committed_from false false tr.

Definition is_select (o : op) : bool :=
  match o with
  | OpSelect _ => true
  | _ => false
  end.

(** A select was run after a commit. *)
Fixpoint refetched (tr : list op) : bool :=
  match tr with
  | [] => false
  | OpCommit :: tr' => existsb is_select tr' || refetched tr'
  | _ :: tr' => refetched tr'
  end.

Definition is_patch (m : mutation) : bool :=
  match m with
  | PatchRegion _ _ | PatchEvent _ _ => true
  | _ => false
  end.

Definition is_event_patch (m : mutation) : bool :=
  match m with
  | PatchEvent _ _ => true
  | _ => false
  end.

(** PUT on a code that no stored region has. *)
Definition creating_put (m : mutation) (d : database) : Prop :=
  match m with
  | PutRegion noc_code _ => matching "NOC" (VStr noc_code) (regions d) = []
  | _ => False
  end.

(** The row [r] holds what was loaded: every loaded value other than the
    key, and the loaded key when there is one (an event loaded without a key
    is stored under a generated one). *)
Definition carries (e : entity) (out r : row) : Prop :=
  (∀ c v, c ≠ pk e → out !! c = Some v → r !! c = Some v) ∧
  (attr out (pk e) ≠ VNull → attr r (pk e) = attr out (pk e)).

(** The body passes the schema and the row [r] of the store holds what was
    loaded from it. *)
Definition stored (schema : entity -> list field) (e : entity)
    (partial : bool) (body : row) (d' : database) (r : row) : Prop :=
  ∃ out, validate partial (schema e) body = inr out ∧
         r ∈ table e d' ∧ carries e out r.

(** The change is in the store the request leaves, and the response agrees
    with that store: a POST names the key of the row that holds the body, PUT
    and PATCH leave a row that holds the body, a DELETE names a key that is
    gone, and PATCH on an event returns what is then stored under the
    [event_id] of the path (the empty object when nothing is). *)
Definition reflects (schema : entity -> list field) (m : mutation)
    (resp : response) (d' : database) : Prop :=
  match m with
  | PostRegion json_data =>
      ∃ r, stored schema Region false json_data d' r ∧
           payload resp =
             message ("Region added with NOC= " +:+ str (attr r "NOC"))
  | PostEvent ev_json =>
      ∃ r, stored schema Event false ev_json d' r ∧
           payload resp =
             message ("Event added with id= " +:+ str (attr r "id"))
  | PutRegion noc_code region_json =>
      (∃ r, stored schema Region false region_json d' r) ∧
      payload resp = message ("Region " +:+ noc_code +:+ " updated")
  | PatchRegion noc_code region_json =>
      (∃ r, stored schema Region true region_json d' r) ∧
      payload resp = message ("Region " +:+ noc_code +:+ " updated")
  | PatchEvent event_id event_json =>
      (∃ r, stored schema Event true event_json d' r) ∧
      match matching "event_id" (VInt event_id) (events d') with
      | [] => payload resp = JObject ∅
      | [r] => payload resp = JObject (dump (schema Event) r)
      | _ => False
      end
  | DeleteRegion noc_code =>
      matching "NOC" (VStr noc_code) (regions d') = [] ∧
      payload resp = message ("Region " +:+ noc_code +:+ " deleted")
  | DeleteEvent event_id =>
      matching "id" (VInt event_id) (events d') = [] ∧
      payload resp = message ("Event " +:+ pretty event_id +:+ " deleted")
  end.

(** What the claim about mutating calls asks of one outcome. *)
Definition outcome_ok (schema : entity -> list field) (m : mutation)
    (x : response * database * list op) : Prop :=
  success (response_of x) →
  committed (trace_of x) = true ∧
  refetched (trace_of x) = is_event_patch m ∧
  reflects schema m (response_of x) (store_of x).

(** ** Further notions used to state properties of the handlers *)

(** Session operations that change what a commit will write, or write it. *)
Definition writes (o : op) : bool :=
  match o with
  | OpSelect _ => false
  | _ => true
  end.

(** A request that left the store as it was and ran selects only. *)
Definition read_only (d : database) (x : response * database * list op)
  : Prop :=
  store_of x = d ∧ existsb writes (trace_of x) = false.



(** The stored row found under the primary key of the loaded data. *)
Definition found (e : entity) (out : row) (d : database) : option row :=
  match attr out (pk e) with
  | VNull => None
  | k => head (matching (pk e) k (table e d))
  end.

(** The object a load gives when it lands on the stored row [tgt], or on
    none. *)
Definition loaded (e : entity) (out : row) (tgt : option row) : instance :=
  match tgt with
  | Some r0 =>
      {| kind := e; ident := Some (attr r0 (pk e)); attrs := out ∪ r0 |}
  | None => {| kind := e; ident := None; attrs := out |}
  end.

(** What the commit of that object writes to its table. *)
Definition write (e : entity) (out : row) (tgt : option row) (t : list row)
  : option (list row * row) :=
  match tgt with
  | Some r0 => update_row e (attr r0 (pk e)) (out ∪ r0) t
  | None => insert_row e out t
  end.

(** No stored event refers to the region [code]. *)
Definition unreferenced (code : string) (d : database) : Prop :=
  matching "NOC" (VStr code) (events d) = [].

Definition Games7_json : row := {[ "name" := VStr "Stoke Mandeville" ]}.

(** A store for the event schema with an [event_id] attribute. *)
Definition db7 : database :=
  {| regions := [GBR]; events := [Games']; online := true;
     ondelete := Restrict |}.

Definition full_json : row :=
  {[ "NOC" := VStr "GBR"; "region" := VStr "United Kingdom";
     "notes" := VStr "host in 2012" ]}.

Definition Paris_json : row :=
  {[ "NOC" := VStr "FRA"; "name" := VStr "Paris" ]}.

(** * Properties *)

(** Closed decidable facts are settled by evaluation. *)
Ltac computed := apply (bool_decide_unpack _); vm_compute; exact I.

Arguments validate : simpl never.
Arguments get_instance : simpl never.
Arguments insert_row : simpl never.
Arguments update_row : simpl never.
Arguments delete_row : simpl never.
Arguments orphan : simpl never.

(** ** Running the session operations *)

Section Facts.

Variable schema : entity -> list field.

Lemma pk_in_columns e : pk e ∈ columns schema e.
Proof. unfold columns. left. Qed.

Lemma filter_by_pk e v w :
  online (store w) = true →
  filter_by schema e (pk e) v w
  = (Ok (matching (pk e) v (table e (store w))), log (OpSelect e) w).
Proof.
  intros Hon. unfold filter_by, select_by.
  rewrite decide_True by apply pk_in_columns. by rewrite Hon.
Qed.

Lemma filter_by_offline e col v w :
  online (store w) = false →
  ∃ ex, filter_by schema e col v w = (Raise ex, w) ∧
        (ex = OperationalError ∨ ex = InvalidRequestError).
Proof.
  intros Hoff. unfold filter_by, select_by. case_decide.
  - rewrite Hoff. eauto.
  - eauto.
Qed.

End Facts.

(** ** Loading onto an instance, a stored row or nothing *)

Lemma get_instance_online (e : entity) (out : row) (w : world) :
  online (store w) = true →
  get_instance e out w = (Ok (persistent e <$> found e out (store w)), w).
Proof.
  intros Hon. unfold get_instance, found, query_first.
  destruct (attr out (pk e)); [done| |]; by rewrite Hon.
Qed.

Lemma get_instance_offline (e : entity) (out : row) (w : world) :
  online (store w) = false →
  get_instance e out w
  = (if decide (attr out (pk e) = VNull) then Ok None
     else Raise OperationalError, w).
Proof.
  intros Hoff. unfold get_instance, query_first.
  destruct (attr out (pk e)); [done| |]; by rewrite Hoff.
Qed.

(** A load onto the instance it is given. *)
Lemma load_onto (e : entity) (fs : list field) (data : row) (i : instance)
    (partial : bool) (w : world) :
  load e fs data (Some i) partial w
  = match validate partial fs data with
    | inl msgs => (Raise (ValidationError msgs), w)
    | inr out =>
        (Ok {| kind := kind i; ident := ident i; attrs := out ∪ attrs i |}, w)
    end.
Proof. unfold load. by destruct (validate partial fs data). Qed.

(** A load without an instance, on a store that answers. *)
Lemma load_lookup (e : entity) (fs : list field) (data : row)
    (partial : bool) (w : world) :
  online (store w) = true →
  load e fs data None partial w
  = match validate partial fs data with
    | inl msgs => (Raise (ValidationError msgs), w)
    | inr out => (Ok (loaded e out (found e out (store w))), w)
    end.
Proof.
  intros Hon. unfold load.
  destruct (validate partial fs data) as [msgs|out]; [done|].
  unfold make_instance, bind. rewrite get_instance_online by done.
  by destruct (found e out (store w)).
Qed.

(** A load that fails validation raises the messages, whatever the store. *)
Lemma load_invalid (e : entity) (fs : list field) (data : row)
    (inst : option instance) (partial : bool) (msgs : messages) (w : world) :
  validate partial fs data = inl msgs →
  load e fs data inst partial w = (Raise (ValidationError msgs), w).
Proof. intros Hval. unfold load. by rewrite Hval. Qed.

Lemma flush_save (e : entity) (out : row) (tgt : option row) (d : database) :
  flush (Save (loaded e out tgt)) d
  = match write e out tgt (table e d) with
    | Some (t, r) => Some (set_table e t d, Some r)
    | None => None
    end.
Proof.
  unfold flush, write. destruct tgt as [r0|]; cbn.
  - by destruct (update_row e _ _ _) as [[t r]|].
  - by destruct (insert_row e _ _) as [[t r]|].
Qed.

(** ** The stored row a load lands on *)

Lemma found_in (e : entity) (out r0 : row) (d : database) :
  found e out d = Some r0 →
  r0 ∈ table e d ∧ attr r0 (pk e) = attr out (pk e) ∧
  attr out (pk e) ≠ VNull.
Proof.
  unfold found. intros Hf.
  assert (attr out (pk e) ≠ VNull ∧
          head (matching (pk e) (attr out (pk e)) (table e d)) = Some r0)
    as [Hset Hhd] by (destruct (attr out (pk e)); done).
  assert (r0 ∈ matching (pk e) (attr out (pk e)) (table e d)) as Hin.
  { destruct (matching _ _ _) as [|a l]; [done|].
    injection Hhd as ->. left. }
  unfold matching in Hin. apply list_elem_of_filter in Hin as [Hk Hin].
  done.
Qed.

Lemma found_none (e : entity) (out : row) (d : database) :
  found e out d = None →
  attr out (pk e) = VNull ∨ attr out (pk e) ∉ keys e (table e d).
Proof.
  unfold found. intros Hf.
  destruct (decide (attr out (pk e) = VNull)) as [|Hset]; [by left|right].
  assert (head (matching (pk e) (attr out (pk e)) (table e d)) = None)
    as Hhd by (destruct (attr out (pk e)); done).
  intros (r & Hr & Hin)%list_elem_of_fmap.
  assert (r ∈ matching (pk e) (attr out (pk e)) (table e d)) as Hm
    by (unfold matching; by apply list_elem_of_filter).
  destruct (matching _ _ _) as [|a l]; [|done].
  by apply elem_of_nil in Hm.
Qed.

Lemma found_fresh (e : entity) (out : row) (d : database) :
  attr out (pk e) ∉ keys e (table e d) → found e out d = None.
Proof.
  intros Hfresh. destruct (found e out d) as [r0|] eqn:Hf; [|done].
  apply found_in in Hf as (Hin & Hk & _). destruct Hfresh.
  apply list_elem_of_fmap. by exists r0.
Qed.

Lemma found_taken (e : entity) (out : row) (d : database) :
  attr out (pk e) ≠ VNull →
  attr out (pk e) ∈ keys e (table e d) →
  ∃ r0, found e out d = Some r0.
Proof.
  intros Hset Hin. destruct (found e out d) as [r0|] eqn:Hf; [by eexists|].
  by apply found_none in Hf as [?|?].
Qed.

Lemma attr_union (out r : row) (c : string) :
  attr (out ∪ r) c = from_option id (attr r c) (out !! c).
Proof.
  unfold attr. destruct (out !! c) as [v|] eqn:Hc.
  - by rewrite (lookup_union_Some_l _ _ _ _ Hc).
  - by rewrite lookup_union_r.
Qed.

Lemma attr_union_set (out r : row) (c : string) :
  attr out c ≠ VNull → attr (out ∪ r) c = attr out c.
Proof.
  intros Hset. rewrite attr_union. unfold attr in *.
  by destruct (out !! c).
Qed.

(** Writing onto the row found under the loaded key keeps that key, so the
    store takes it. *)
Lemma write_found (e : entity) (out r0 : row) (d : database) :
  found e out d = Some r0 →
  write e out (Some r0) (table e d)
  = Some (replace_row e (attr out (pk e)) (out ∪ r0) (table e d), out ∪ r0).
Proof.
  intros (Hin & Hk & Hset)%found_in. unfold write, update_row.
  rewrite Hk, attr_union_set by done.
  rewrite decide_False by done. rewrite decide_False; [done|].
  by intros [? _].
Qed.
(** ** What a successful load holds *)

Ltac split_pair H :=
  let H1 := fresh "Hfst" in
  let H2 := fresh "Hsnd" in
  injection H as H1 H2; try subst.

Lemma field_deserialize_present (f : field) (raw : value) :
  field_deserialize f (Some raw) ≠ inr None.
Proof. unfold field_deserialize. destruct raw; repeat case_match; done. Qed.

Lemma validate_inr (partial : bool) (fs : list field) (data out : row) :
  validate partial fs data = inr out →
  load_fields partial fs data = (∅, out) ∧ unknown_errors fs data = ∅.
Proof.
  unfold validate. destruct (load_fields partial fs data) as [errs o].
  case_decide as Hempty; [|done]. intros [= ->].
  pose proof (map_positive_l _ _ Hempty) as ->.
  by rewrite (left_id_L ∅ (∪)) in Hempty.
Qed.

Lemma unknown_errors_empty (fs : list field) (data : row) (c : string)
    (v : value) :
  unknown_errors fs data = ∅ → data !! c = Some v → c ∈ fname <$> fs.
Proof.
  unfold unknown_errors. intros Hempty%fmap_empty_inv Hc.
  destruct (decide (c ∈ fname <$> fs)) as [|Hnot]; [done|].
  assert (filter (λ kv : string * value, kv.1 ∉ fname <$> fs) data !! c
          = Some v) as Hin by (by apply map_lookup_filter_Some).
  by rewrite Hempty in Hin.
Qed.

(** With [partial=True] every loaded value is the deserialised value of a
    key of the input. *)
Lemma load_fields_partial_value (fs : list field) (data : row) :
  ∀ errs out c v,
    load_fields true fs data = (errs, out) →
    out !! c = Some v →
    ∃ f raw, f ∈ fs ∧ fname f = c ∧ data !! c = Some raw ∧
             field_deserialize f (Some raw) = inr (Some v).
Proof.
  induction fs as [|f fs IH]; intros errs out c v; cbn.
  - intros Heq; split_pair Heq. by rewrite lookup_empty.
  - destruct (load_fields true fs data) as [errs' out'] eqn:Hrec.
    assert (∀ v', out' !! c = Some v' →
              ∃ f0 raw, f0 ∈ f :: fs ∧ fname f0 = c ∧ data !! c = Some raw ∧
                        field_deserialize f0 (Some raw) = inr (Some v'))
      as Htail.
    { intros v' Hv'. destruct (IH _ _ _ _ eq_refl Hv') as (f0 & raw & ? & ?).
      exists f0, raw. split; [by right|done]. }
    destruct (data !! fname f) as [raw|] eqn:Hraw.
    + destruct (field_deserialize f (Some raw)) as [msgs|[v0|]] eqn:Hdes;
        intros Heq; split_pair Heq; try by apply Htail.
      destruct (decide (fname f = c)) as [<-|Hne].
      * rewrite lookup_insert_eq. intros [= <-].
        exists f, raw. split; [left|done].
      * rewrite lookup_insert_ne by done. apply Htail.
    + intros Heq; split_pair Heq. apply Htail.
Qed.

(** A load without errors holds a value for every declared field that the
    input supplies. *)
Lemma load_fields_complete (partial : bool) (fs : list field) (data : row) :
  ∀ out f,
    load_fields partial fs data = (∅, out) →
    f ∈ fs → is_Some (data !! fname f) → is_Some (out !! fname f).
Proof.
  induction fs as [|f0 fs IH]; intros out f; cbn.
  - intros _ Hin. by apply elem_of_nil in Hin.
  - destruct (load_fields partial fs data) as [errs' out'] eqn:Hrec.
    intros Hload Hin [raw Hraw].
    assert (errs' = ∅ ∧
            (out = out' ∧ fname f0 ≠ fname f ∨
             ∃ v0, out = <[fname f0 := v0]> out')) as [-> Hout].
    { destruct (data !! fname f0) as [raw0|] eqn:Hraw0.
      - pose proof (field_deserialize_present f0 raw0) as Hpres.
        destruct (field_deserialize f0 (Some raw0)) as [msgs|[v0|]];
          [| |done]; split_pair Hload.
        + by apply insert_non_empty in Hfst.
        + eauto.
      - assert (fname f0 ≠ fname f) by (intros Heq; congruence).
        destruct partial.
        + split_pair Hload. eauto.
        + destruct (field_deserialize f0 None) as [msgs|[v0|]];
            split_pair Hload.
          * by apply insert_non_empty in Hfst.
          * eauto.
          * eauto. }
    destruct Hout as [[-> Hne] | [v0 ->]].
    + apply elem_of_cons in Hin as [->|Hin]; [done|].
      eapply IH; eauto.
    + apply lookup_insert_is_Some'.
      destruct (decide (fname f0 = fname f)); [by left|right].
      apply elem_of_cons in Hin as [->|Hin]; [done|].
      eapply IH; eauto.
Qed.

(** A partial load that passes validation holds exactly the supplied keys. *)
Lemma validate_partial_dom (fs : list field) (data out : row) :
  validate true fs data = inr out → dom out = dom data.
Proof.
  intros [Hload Hunk]%validate_inr. apply set_eq. intros c.
  rewrite !elem_of_dom. split.
  - intros [v Hv].
    destruct (load_fields_partial_value _ _ _ _ _ _ Hload Hv)
      as (f & raw & _ & _ & -> & _). eauto.
  - intros [raw Hraw].
    pose proof (unknown_errors_empty _ _ _ _ Hunk Hraw) as Hin.
    apply list_elem_of_fmap in Hin as (f & -> & Hf).
    eapply load_fields_complete; eauto.
Qed.

(** A full load holds nothing for a field that the input omits, unless the
    field declares a load default. *)
Lemma load_fields_omitted (fs : list field) (data : row) (c : string) :
  ∀ errs out,
    load_fields false fs data = (errs, out) →
    data !! c = None →
    (∀ f, f ∈ fs → fname f = c → load_default f = None) →
    out !! c = None.
Proof.
  induction fs as [|f fs IH]; intros errs out; cbn.
  - intros Heq _ _. split_pair Heq. apply lookup_empty.
  - destruct (load_fields false fs data) as [errs' out'] eqn:Hrec.
    intros Hload Hc Hdef.
    assert (out' !! c = None) as Hout'.
    { eapply IH; eauto. intros f0 Hf0. apply Hdef. by right. }
    destruct (data !! fname f) as [raw|] eqn:Hraw.
    + assert (fname f ≠ c) by congruence.
      destruct (field_deserialize f (Some raw)) as [msgs|[v0|]];
        split_pair Hload; try done.
      by rewrite lookup_insert_ne.
    + unfold field_deserialize in Hload.
      destruct (required f); [by split_pair Hload|].
      destruct (load_default f) as [v0|] eqn:Hld;
        split_pair Hload; [|done].
      rewrite lookup_insert_ne; [done|].
      intros Heq. specialize (Hdef f (list_elem_of_here _ _) Heq). congruence.
Qed.

(** ** Unknown codes *)

(** C8: for a code that no stored region has, GET /regions/{code} and
    DELETE /regions/{code} both answer 404 with the JSON body
    [{"error": <description>}], and leave the store as it was. *)
Theorem unknown_code_404 (schema : entity -> list field) (d : database)
    (code : string) :
  online d = true →
  matching "NOC" (VStr code) (regions d) = [] →
  ∃ description,
    let not_found :=
      {| status := 404;
         payload := JObject {[ "error" := VStr description ]} |} in
    response_of (serve (get_region schema code) d) = not_found ∧
    response_of (serve (delete_region schema code) d) = not_found ∧
    store_of (serve (delete_region schema code) d) = d.
Proof.
  intros Hon Habs. exists NoResultFound_str.
  unfold serve, get_region, delete_region, bind.
  rewrite (filter_by_pk schema Region) by done. cbn.
  rewrite Habs. by destruct d.
Qed.

Lemma unknown_code_404_witness :
  online db0 = true ∧
  matching "NOC" (VStr "ZZZ") (regions db0) = [] ∧
  ∃ description,
    let not_found :=
      {| status := 404;
         payload := JObject {[ "error" := VStr description ]} |} in
    response_of (serve (get_region Fields "ZZZ") db0) = not_found ∧
    response_of (serve (delete_region Fields "ZZZ") db0) = not_found ∧
    store_of (serve (delete_region Fields "ZZZ") db0) = db0.
Proof.
  split; [reflexivity|]. split; [reflexivity|].
  apply (unknown_code_404 Fields db0 "ZZZ"); reflexivity.
Defined.

(** ** PUT on a code that is not stored *)

(** C1: for a code that no stored region has and a body that passes the
    schema, PUT /regions/{code} answers 200 "Region added" after the lookup
    alone: nothing is added or committed, the store is unchanged, and GET on
    the same code still answers 404. *)
Theorem put_unknown_code_not_stored (schema : entity -> list field)
    (d : database) (code : string) (region_json out : row) :
  online d = true →
  matching "NOC" (VStr code) (regions d) = [] →
  validate false (schema Region) region_json = inr out →
  serve (region_update schema PUT code region_json) d
  = ({| status := 200;
        payload := message ("Region added with NOC= " +:+ code) |},
     d, [OpSelect Region]) ∧
  status (response_of (serve (get_region schema code) d)) = 404.
Proof.
  intros Hon Habs Hval. split.
  - unfold serve, region_update, bind, try_except.
    rewrite (filter_by_pk schema Region) by done. cbn.
    rewrite Habs. cbn. rewrite load_lookup by done.
    rewrite Hval. by destruct d.
  - unfold serve, get_region, bind.
    rewrite (filter_by_pk schema Region) by done. cbn.
    by rewrite Habs.
Qed.

Lemma put_unknown_code_not_stored_witness :
  online db0 = true ∧
  matching "NOC" (VStr "ZZZ") (regions db0) = [] ∧
  validate false (Fields Region) ZZZ_json = inr ZZZ_json ∧
  serve (region_update Fields PUT "ZZZ" ZZZ_json) db0
  = ({| status := 200;
        payload := message ("Region added with NOC= " +:+ "ZZZ") |},
     db0, [OpSelect Region]) ∧
  status (response_of (serve (get_region Fields "ZZZ") db0)) = 404.
Proof.
  split; [reflexivity|]. split; [reflexivity|].
  split; [(vm_compute; reflexivity)|].
  apply (put_unknown_code_not_stored Fields db0 "ZZZ" ZZZ_json ZZZ_json);
    (vm_compute; reflexivity).
Defined.

(** ** PATCH on an event *)

(** C2: when the Event model has no attribute [event_id], PATCH
    /events/{id} fails while building its first query, whatever the id and
    the body: the answer is 500 and the store is untouched. *)
Theorem event_update_unknown_attribute (schema : entity -> list field)
    (d : database) (event_id : Z) (event_json : row) :
  "event_id" ∉ fname <$> schema Event →
  serve (event_update schema event_id event_json) d
  = ({| status := 500; payload := Html "Internal Server Error" |}, d, []).
Proof.
  intros Hcol. unfold serve, event_update, bind, filter_by, select_by.
  rewrite decide_False.
  - by destruct d.
  - unfold columns. rewrite elem_of_cons. intros [Heq | Hin]; [done|].
    by apply Hcol.
Qed.

Lemma event_update_unknown_attribute_witness :
  ("event_id" ∉ fname <$> Fields Event) ∧
  matching "id" (VInt 1) (events db0) = [Games] ∧
  (∃ out, validate true (Fields Event) {[ "name" := VStr "Stoke" ]}
          = inr out) ∧
  status (response_of (serve (get_event Fields 1) db0)) = 200 ∧
  serve (event_update Fields 1 {[ "name" := VStr "Stoke" ]}) db0
  = ({| status := 500; payload := Html "Internal Server Error" |}, db0, []).
Proof.
  split; [computed|]. split; [reflexivity|].
  split; [by eexists; vm_compute|]. split; [reflexivity|].
  apply (event_update_unknown_attribute Fields db0 1). computed.
Defined.

(** ** Reads while the store is failing *)

(** C6: while the store cannot be read, GET /regions answers 404, but
    GET /regions/{code}, GET /events and GET /events/{id} answer 500. *)
Theorem read_failure_status (schema : entity -> list field) (d : database)
    (code : string) (event_id : Z) :
  online d = false →
  status (response_of (serve (get_regions schema) d)) = 404 ∧
  status (response_of (serve (get_region schema code) d)) = 500 ∧
  status (response_of (serve (get_events schema) d)) = 500 ∧
  status (response_of (serve (get_event schema event_id) d)) = 500.
Proof.
  intros Hoff. repeat split.
  - unfold serve, get_regions, try_except, bind, select_all. cbn.
    by rewrite Hoff.
  - unfold serve, get_region, bind.
    destruct (filter_by_offline schema Region "NOC" (VStr code)
                {| store := d; pending := []; trace := [] |} Hoff)
      as (ex & -> & [-> | ->]); done.
  - unfold serve, get_events, bind, select_all. cbn. by rewrite Hoff.
  - unfold serve, get_event, bind.
    destruct (filter_by_offline schema Event "id" (VInt event_id)
                {| store := d; pending := []; trace := [] |} Hoff)
      as (ex & -> & [-> | ->]); done.
Qed.

Lemma read_failure_status_witness :
  online (offline db0) = false ∧
  status (response_of (serve (get_regions Fields) (offline db0))) = 404 ∧
  status (response_of (serve (get_region Fields "GBR") (offline db0))) = 500 ∧
  status (response_of (serve (get_events Fields) (offline db0))) = 500 ∧
  status (response_of (serve (get_event Fields 1) (offline db0))) = 500.
Proof.
  split; [reflexivity|].
  apply (read_failure_status Fields (offline db0) "GBR" 1). reflexivity.
Defined.

(** ** Adding and committing a loaded object *)

(** The add and the commit that follow a load, on a store that answers: the
    store takes the write and the handler goes on with the stored row, or the
    store refuses it and the commit raises. *)
Lemma add_commit {A : Type} (e : entity) (out : row) (tgt : option row)
    (d : database) (tr : list op) (k : list row → M A) :
  online d = true →
  (do_ session_add (loaded e out tgt);
   do saved <- session_commit;
   k saved) {| store := d; pending := []; trace := tr |}
  = match write e out tgt (table e d) with
    | Some (t, r) =>
        k [r] {| store := set_table e t d; pending := [];
                 trace := tr ++ [OpAdd; OpCommit] |}
    | None =>
        (Raise IntegrityError,
         {| store := d; pending := []; trace := tr ++ [OpAdd] |})
    end.
Proof.
  intros Hon. unfold bind, session_add, session_commit. cbn -[flush].
  rewrite Hon. cbn -[flush]. rewrite flush_save.
  destruct (write e out tgt (table e d)) as [[t r]|]; cbn.
  - by rewrite <- (assoc_L (++)).
  - done.
Qed.

(** The same when the store cannot be reached. *)
Lemma add_commit_offline {A : Type} (i : instance) (d : database)
    (tr : list op) (k : list row → M A) :
  online d = false →
  (do_ session_add i;
   do saved <- session_commit;
   k saved) {| store := d; pending := []; trace := tr |}
  = (Raise OperationalError,
     {| store := d; pending := [Save i]; trace := tr ++ [OpAdd] |}).
Proof.
  intros Hoff. unfold bind, session_add, session_commit. cbn -[flush].
  by rewrite Hoff.
Qed.

Lemma insert_row_fresh (r : row) (t : list row) :
  attr r "NOC" ≠ VNull →
  attr r "NOC" ∉ keys Region t →
  insert_row Region r t = Some (t ++ [r], r).
Proof.
  intros Hset Hfresh. unfold insert_row. cbn.
  destruct (attr r "NOC") eqn:Hk; [done| |]; by rewrite decide_False.
Qed.

Lemma insert_row_unset (r : row) (t : list row) :
  attr r "NOC" = VNull → insert_row Region r t = None.
Proof. intros Hk. unfold insert_row. cbn. by rewrite Hk. Qed.

(** ** POST *)

Section Post.

Variable schema : entity -> list field.

Lemma add_region_run (d : database) (json_data : row) :
  online d = true →
  serve (add_region schema json_data) d
  = match validate false (schema Region) json_data with
    | inl msgs => (register_validation_error msgs, d, [])
    | inr out =>
        match write Region out (found Region out d) (regions d) with
        | Some (t, r) =>
            ({| status := 201;
                payload := message ("Region added with NOC= "
                                    +:+ str (attr r "NOC")) |},
             set_table Region t d, [OpAdd; OpCommit])
        | None =>
            ({| status := 500; payload := Html "Internal Server Error" |},
             d, [OpAdd])
        end
    end.
Proof.
  intros Hon. unfold serve, add_region. unfold bind at 1.
  rewrite load_lookup by done.
  destruct (validate false (schema Region) json_data) as [msgs|out];
    [by destruct d|].
  rewrite add_commit by done. cbn.
  by destruct (write Region out (found Region out d) (regions d))
    as [[t r]|].
Qed.

Lemma add_event_run (d : database) (ev_json : row) :
  online d = true →
  serve (add_event schema ev_json) d
  = match validate false (schema Event) ev_json with
    | inl msgs => (register_validation_error msgs, d, [])
    | inr out =>
        match write Event out (found Event out d) (events d) with
        | Some (t, r) =>
            ({| status := 201;
                payload := message ("Event added with id= "
                                    +:+ str (attr r "id")) |},
             set_table Event t d, [OpAdd; OpCommit])
        | None =>
            ({| status := 500; payload := Html "Internal Server Error" |},
             d, [OpAdd])
        end
    end.
Proof.
  intros Hon. unfold serve, add_event. unfold bind at 1.
  rewrite load_lookup by done.
  destruct (validate false (schema Event) ev_json) as [msgs|out];
    [by destruct d|].
  rewrite add_commit by done. cbn.
  by destruct (write Event out (found Event out d) (events d))
    as [[t r]|].
Qed.

(** A POST while the store cannot be reached: the load or the commit
    raises, and the store is as it was. *)
Lemma post_offline (d : database) (e : entity) (body : row) :
  online d = false →
  ∃ resp tr,
    serve (match e with
           | Region => add_region schema body
           | Event => add_event schema body
           end) d = (resp, d, tr) ∧
    (status resp = 400 ∨ status resp = 500).
Proof.
  intros Hoff.
  destruct e; unfold serve, add_region, add_event; unfold bind at 1.
  all: unfold load;
    (destruct (validate false _ body) as [msgs|out];
     [cbn; eexists _, _; split; [by destruct d|by left]|]).
  all: unfold make_instance; unfold bind at 1;
    rewrite get_instance_offline by done;
    (case_decide; cbn -[bind];
     [|eexists _, _; split; [by destruct d|by right]]).
  all: rewrite add_commit_offline by done; cbn;
    eexists _, _; split; [by destruct d|by right].
Qed.

End Post.

(** ** POST of a region whose code is stored *)

(** C10, as amended: when the body of POST /regions passes the schema and
    its NOC is the NOC of a stored region, nothing is raised, by the load or
    by the commit: the load lands on the stored region of that NOC and sets
    the loaded values on it, the commit writes that row back in place, and the
    answer is 201 "Region added with NOC= ...", so neither a 400 nor a 404;
    no row is added. *)
Theorem add_region_stored_code (schema : entity -> list field) (d : database)
    (json_data out : row) :
  online d = true →
  validate false (schema Region) json_data = inr out →
  attr out "NOC" ≠ VNull →
  attr out "NOC" ∈ keys Region (regions d) →
  let added :=
    {| status := 201;
       payload := message ("Region added with NOC= "
                           +:+ str (attr out "NOC")) |} in
  ∃ r0,
    head (matching "NOC" (attr out "NOC") (regions d)) = Some r0 ∧
    (add_region schema json_data
       {| store := d; pending := []; trace := [] |}).1 = Ok added ∧
    serve (add_region schema json_data) d
    = (added,
       set_table Region
         (replace_row Region (attr out "NOC") (out ∪ r0) (regions d)) d,
       [OpAdd; OpCommit]) ∧
    length (regions (store_of (serve (add_region schema json_data) d)))
    = length (regions d).
Proof.
  intros Hon Hval Hset Hdup added.
  destruct (found_taken Region out d Hset Hdup) as [r0 Hf].
  exists r0.
  assert (serve (add_region schema json_data) d
          = (added,
             set_table Region
               (replace_row Region (attr out "NOC") (out ∪ r0) (regions d)) d,
             [OpAdd; OpCommit])) as Hrun.
  { rewrite add_region_run by done. rewrite Hval, Hf.
    pose proof (write_found Region out r0 d Hf) as Hw.
    change (table Region d) with (regions d) in Hw.
    change (pk Region) with "NOC" in Hw.
    rewrite Hw. subst added. by rewrite attr_union_set. }
  split; [|split; [|split]].
  - unfold found in Hf. cbn in Hf. by destruct (attr out "NOC").
  - unfold serve in Hrun.
    destruct (add_region schema json_data _) as [[resp|ex] w]; cbn in *.
    + congruence.
    + exfalso. injection Hrun as Hresp _ _. subst added.
      unfold handle_exception in Hresp.
      destruct ex; cbn in Hresp; try discriminate.
  - exact Hrun.
  - rewrite Hrun. cbn. unfold replace_row. by rewrite length_fmap.
Qed.

Lemma add_region_stored_code_witness :
  online db0 = true ∧
  validate false (Fields Region) GBR_json = inr GBR_json ∧
  attr GBR_json "NOC" ≠ VNull ∧
  attr GBR_json "NOC" ∈ keys Region (regions db0) ∧
  ∃ r0,
    head (matching "NOC" (attr GBR_json "NOC") (regions db0)) = Some r0 ∧
    (add_region Fields GBR_json
       {| store := db0; pending := []; trace := [] |}).1
    = Ok {| status := 201;
            payload := message ("Region added with NOC= "
                                +:+ str (attr GBR_json "NOC")) |} ∧
    serve (add_region Fields GBR_json) db0
    = ({| status := 201;
          payload := message ("Region added with NOC= "
                              +:+ str (attr GBR_json "NOC")) |},
       set_table Region
         (replace_row Region (attr GBR_json "NOC") (GBR_json ∪ r0)
            (regions db0)) db0,
       [OpAdd; OpCommit]) ∧
    length (regions (store_of (serve (add_region Fields GBR_json) db0)))
    = length (regions db0).
Proof.
  split; [reflexivity|]. split; [(vm_compute; reflexivity)|].
  split; [computed|]. split; [computed|].
  apply (add_region_stored_code Fields db0 GBR_json GBR_json).
  - reflexivity.
  - vm_compute; reflexivity.
  - computed.
  - computed.
Defined.

(** C10, as stated, fails: POST /regions with the code of a stored region
    raises nothing; the commit goes through as an update of the stored row
    and the answer is 201. *)
Lemma add_region_stored_code_answers_201 :
  validate false (Fields Region) GBR_json = inr GBR_json ∧
  attr GBR_json "NOC" ∈ keys Region (regions db0) ∧
  (add_region Fields GBR_json
     {| store := db0; pending := []; trace := [] |}).1
  = Ok {| status := 201;
          payload := message "Region added with NOC= GBR" |} ∧
  serve (add_region Fields GBR_json) db0
  = ({| status := 201; payload := message "Region added with NOC= GBR" |},
     set_table Region [GBR_json ∪ GBR; FRA] db0, [OpAdd; OpCommit]).
Proof.
  split; [vm_compute; reflexivity|]. split; [computed|].
  split; vm_compute; reflexivity.
Qed.

(** ** PATCH on a code that is not stored *)

(** The outcome of PATCH /regions/{code} when the lookup finds nothing: the
    partial load runs without an instance, so it lands on the stored region
    of the loaded NOC or on a new object, which is added and committed. *)
Lemma patch_unknown_code_run (schema : entity -> list field) (d : database)
    (code : string) (region_json : row) :
  online d = true →
  matching "NOC" (VStr code) (regions d) = [] →
  serve (region_update schema PATCH code region_json) d
  = match validate true (schema Region) region_json with
    | inl msgs => (register_validation_error msgs, d, [OpSelect Region])
    | inr out =>
        match write Region out (found Region out d) (regions d) with
        | Some (t, _) =>
            ({| status := 200;
                payload := message ("Region " +:+ code +:+ " updated") |},
             set_table Region t d, [OpSelect Region; OpAdd; OpCommit])
        | None =>
            ({| status := 500; payload := Html "Internal Server Error" |},
             d, [OpSelect Region; OpAdd])
        end
    end.
Proof.
  intros Hon Habs.
  unfold serve, region_update. unfold bind at 1.
  rewrite (filter_by_pk schema Region) by done. cbn -[bind load].
  rewrite Habs. unfold bind at 1. cbn -[bind load region_commit].
  unfold bind at 1. rewrite load_lookup by done. cbn -[bind region_commit].
  destruct (validate true (schema Region) region_json) as [msgs|out];
    [by destruct d|].
  unfold region_commit, log. cbn [store pending trace app].
  rewrite (add_commit Region out _ d _ (λ _, ret _)) by done. cbn.
  by destruct (write Region out (found Region out d) (regions d))
    as [[t r]|].
Qed.

(** C9, as amended: for a code that no stored region has and a body that
    passes partial validation and carries a NOC that is set and not yet
    stored, PATCH /regions/{code} adds the loaded body as a new row, commits
    and answers 200 "Region {code} updated". *)
Theorem patch_unknown_code_inserts (schema : entity -> list field)
    (d : database) (code : string) (region_json out : row) :
  online d = true →
  matching "NOC" (VStr code) (regions d) = [] →
  validate true (schema Region) region_json = inr out →
  attr out "NOC" ≠ VNull →
  attr out "NOC" ∉ keys Region (regions d) →
  serve (region_update schema PATCH code region_json) d
  = ({| status := 200;
        payload := message ("Region " +:+ code +:+ " updated") |},
     set_table Region (regions d ++ [out]) d,
     [OpSelect Region; OpAdd; OpCommit]).
Proof.
  intros Hon Habs Hval Hset Hfresh.
  rewrite patch_unknown_code_run by done.
  rewrite Hval, (found_fresh Region) by done. cbn.
  by rewrite insert_row_fresh.
Qed.

Lemma patch_unknown_code_inserts_witness :
  online db0 = true ∧
  matching "NOC" (VStr "ZZZ") (regions db0) = [] ∧
  validate true (Fields Region) ZZZ_json = inr ZZZ_json ∧
  attr ZZZ_json "NOC" ≠ VNull ∧
  (attr ZZZ_json "NOC" ∉ keys Region (regions db0)) ∧
  serve (region_update Fields PATCH "ZZZ" ZZZ_json) db0
  = ({| status := 200;
        payload := message ("Region " +:+ "ZZZ" +:+ " updated") |},
     set_table Region (regions db0 ++ [ZZZ_json]) db0,
     [OpSelect Region; OpAdd; OpCommit]).
Proof.
  split; [reflexivity|]. split; [reflexivity|]. split; [(vm_compute; reflexivity)|].
  split; [computed|]. split; [computed|].
  apply (patch_unknown_code_inserts Fields db0 "ZZZ" ZZZ_json ZZZ_json);
    [reflexivity|reflexivity|(vm_compute; reflexivity)|computed|computed].
Defined.

(** C9, as stated, fails: a body that passes partial validation but carries
    no NOC cannot be stored, and the request ends in a 500 with the store
    unchanged. *)
Lemma patch_unknown_code_without_key :
  online db0 = true ∧
  matching "NOC" (VStr "ZZZ") (regions db0) = [] ∧
  validate true (Fields Region) Zed_json = inr Zed_json ∧
  serve (region_update Fields PATCH "ZZZ" Zed_json) db0
  = ({| status := 500; payload := Html "Internal Server Error" |},
     db0, [OpSelect Region; OpAdd]).
Proof.
  split; [reflexivity|]. split; [reflexivity|].
  split; vm_compute; reflexivity.
Qed.

(** C3, as amended: for a code that no stored region has, PATCH
    /regions/{code} never answers 404.  It answers 400 when the body fails
    partial validation.  Otherwise the partial load goes on without an
    instance: when the loaded body carries the NOC of a stored region, that
    region is written with the loaded values; when it carries a NOC that is
    not stored, the body is stored as a new region; both answer 200
    "Region {code} updated".  When the loaded body carries no NOC the commit
    is refused, the answer is 500 and the store is unchanged. *)
Theorem patch_unknown_code_proceeds (schema : entity -> list field)
    (d : database) (code : string) (region_json : row) :
  online d = true →
  matching "NOC" (VStr code) (regions d) = [] →
  let x := serve (region_update schema PATCH code region_json) d in
  let updated :=
    {| status := 200;
       payload := message ("Region " +:+ code +:+ " updated") |} in
  status (response_of x) ≠ 404 ∧
  match validate true (schema Region) region_json with
  | inl msgs => response_of x = register_validation_error msgs ∧ store_of x = d
  | inr out =>
      match found Region out d with
      | Some r1 =>
          response_of x = updated ∧
          store_of x
          = set_table Region
              (replace_row Region (attr out "NOC") (out ∪ r1) (regions d)) d
      | None =>
          if decide (attr out "NOC" = VNull)
          then status (response_of x) = 500 ∧ store_of x = d
          else response_of x = updated ∧
               store_of x = set_table Region (regions d ++ [out]) d
      end
  end.
Proof.
  intros Hon Habs x updated. unfold x, updated.
  rewrite patch_unknown_code_run by done.
  destruct (validate true (schema Region) region_json) as [msgs|out];
    [done|].
  destruct (found Region out d) as [r1|] eqn:Hf.
  - pose proof (write_found Region out r1 d Hf) as Hw.
    change (table Region d) with (regions d) in Hw.
    change (pk Region) with "NOC" in Hw.
    by rewrite Hw.
  - cbn. case_decide as Hk.
    + by rewrite insert_row_unset.
    + apply found_none in Hf as [?|Hfresh]; [done|].
      by rewrite insert_row_fresh.
Qed.

Lemma patch_unknown_code_proceeds_witness :
  online db0 = true ∧
  matching "NOC" (VStr "ZZZ") (regions db0) = [] ∧
  status (response_of (serve (region_update Fields PATCH "ZZZ" GBR_json) db0))
  ≠ 404.
Proof.
  split; [reflexivity|]. split; [reflexivity|].
  exact (proj1 (patch_unknown_code_proceeds Fields db0 "ZZZ" GBR_json
                  eq_refl eq_refl)).
Defined.

(** C3, as stated, fails: PATCH on a code that is not stored answers 200 and
    stores the body as a new region. *)
Lemma patch_unknown_code_answers_200 :
  matching "NOC" (VStr "ZZZ") (regions db0) = [] ∧
  status (response_of (serve (region_update Fields PATCH "ZZZ" ZZZ_json) db0))
  = 200 ∧
  regions (store_of (serve (region_update Fields PATCH "ZZZ" ZZZ_json) db0))
  = [GBR; FRA; ZZZ_json].
Proof.
  split; [reflexivity|]. split; vm_compute; reflexivity.
Qed.

(** PATCH on a code that is not stored, with the NOC of a stored region in
    the body: that region is the one written, under the message for the code
    of the path. *)
Example patch_unknown_code_updates_named :
  serve (region_update Fields PATCH "ZZZ" GBR_json) db0
  = ({| status := 200; payload := message "Region ZZZ updated" |},
     set_table Region [GBR_json ∪ GBR; FRA] db0,
     [OpSelect Region; OpAdd; OpCommit]).
Proof. vm_compute; reflexivity. Qed.
(** ** PUT and PATCH on a stored region *)

Lemma matching_key (col : string) (v : value) (t : list row) (r : row) :
  r ∈ matching col v t → attr r col = v.
Proof. unfold matching. by intros [? _]%list_elem_of_filter. Qed.

Lemma matching_fresh (e : entity) (k : value) (t : list row) :
  k ∉ keys e t → matching (pk e) k t = [].
Proof.
  unfold matching, keys. induction t as [|a t IH]; [done|].
  rewrite fmap_cons, not_elem_of_cons. intros [Hne Hnot].
  rewrite filter_cons_False by done. by apply IH.
Qed.

Lemma replace_row_absent (e : entity) (k0 : value) (r : row) (t : list row) :
  matching (pk e) k0 t = [] → replace_row e k0 r t = t.
Proof.
  unfold matching, replace_row. induction t as [|a t IH]; [done|].
  rewrite filter_cons. case_decide as Hk; [done|].
  intros Hnil. rewrite fmap_cons, decide_False by done. by rewrite IH.
Qed.

(** After the update, the row found under the new key is the written row,
    provided the old key named one row and the new key is the old one or is
    not in use. *)
Lemma matching_replace_row (e : entity) (k0 k : value) (r0 r : row)
    (t : list row) :
  matching (pk e) k0 t = [r0] →
  attr r (pk e) = k →
  k = k0 ∨ k ∉ keys e t →
  matching (pk e) k (replace_row e k0 r t) = [r].
Proof.
  intros Hone Hk. revert Hone. induction t as [|a t IH]; [done|].
  intros Hone Hfree.
  assert (k = k0 ∨ k ∉ keys e t) as Hfree'.
  { destruct Hfree as [|Hnot]; [by left|right].
    unfold keys in *. rewrite fmap_cons, not_elem_of_cons in Hnot. tauto. }
  unfold matching in Hone. rewrite filter_cons in Hone.
  unfold replace_row. rewrite fmap_cons. fold (replace_row e k0 r t).
  case_decide as Ha.
  - injection Hone as -> Hnil. fold (matching (pk e) k0 t) in Hnil.
    rewrite replace_row_absent by done.
    unfold matching. rewrite filter_cons_True by done. f_equal.
    destruct Hfree' as [->|Hnot]; [done|].
    by apply matching_fresh.
  - unfold matching at 1. rewrite filter_cons_False.
    + by apply IH.
    + destruct Hfree as [->|Hnot]; [done|].
      unfold keys in Hnot. rewrite fmap_cons, not_elem_of_cons in Hnot.
      intros Heq. by destruct Hnot as [Hne _].
Qed.

Lemma update_row_free (e : entity) (k0 k : value) (r : row) (t : list row) :
  attr r (pk e) = k → k ≠ VNull → k = k0 ∨ k ∉ keys e t →
  update_row e k0 r t = Some (replace_row e k0 r t, r).
Proof.
  intros Hk Hset Hfree. unfold update_row. rewrite Hk.
  rewrite decide_False by done. rewrite decide_False; [done|].
  intros [Hne Hin]. by destruct Hfree.
Qed.

(** The outcome of PUT or PATCH /regions/{code} when the lookup finds the
    one row [r0]: the body is loaded onto that row, and the row is added and
    committed. *)
Lemma region_update_stored_run (schema : entity -> list field) (d : database)
    (m : method) (code : string) (r0 region_json : row) :
  online d = true →
  matching "NOC" (VStr code) (regions d) = [r0] →
  serve (region_update schema m code region_json) d
  = match validate (partial_of m) (schema Region) region_json with
    | inl msgs => ({| status := 400; payload := JErrors msgs |}, d,
                   [OpSelect Region])
    | inr out =>
        match update_row Region (VStr code) (out ∪ r0) (regions d) with
        | Some (t, _) =>
            ({| status := 200;
                payload := message ("Region " +:+ code +:+ " updated") |},
             set_table Region t d, [OpSelect Region; OpAdd; OpCommit])
        | None =>
            ({| status := 500; payload := Html "Internal Server Error" |},
             d, [OpSelect Region; OpAdd])
        end
    end.
Proof.
  intros Hon Hone.
  assert (attr r0 "NOC" = VStr code) as Hkey.
  { apply (matching_key _ _ (regions d)). rewrite Hone. left. }
  unfold serve, region_update. unfold bind at 1.
  rewrite (filter_by_pk schema Region) by done. cbn -[bind load].
  rewrite Hone. unfold bind at 1. cbn -[bind load region_commit].
  destruct m; [unfold bind at 1; unfold try_except|]; unfold bind at 1;
    rewrite load_onto; cbn -[bind region_commit];
    (destruct (validate _ (schema Region) region_json) as [msgs|out];
     [by destruct d|]);
    cbn -[bind region_commit]; unfold region_commit, log;
    cbn [store pending trace app];
    rewrite (add_commit Region out (Some r0) d _ (λ _, ret _)) by done;
    cbn; rewrite Hkey;
    (destruct (update_row Region (VStr code) (out ∪ r0) (regions d))
       as [[t r]|]; cbn; by destruct d).
Qed.

(** C5: PUT /regions/{code} on a stored region writes the loaded values over
    the stored row.  A column that the body omits, and whose field declares
    no load default, keeps the value it had: the stored region is not
    replaced as a whole. *)
Theorem put_keeps_omitted_fields (schema : entity -> list field)
    (d : database) (code : string) (r0 region_json out : row) (c : string) :
  online d = true →
  matching "NOC" (VStr code) (regions d) = [r0] →
  validate false (schema Region) region_json = inr out →
  attr (out ∪ r0) "NOC" = VStr code →
  region_json !! c = None →
  (∀ f, f ∈ schema Region → fname f = c → load_default f = None) →
  let x := serve (region_update schema PUT code region_json) d in
  response_of x
  = {| status := 200;
       payload := message ("Region " +:+ code +:+ " updated") |} ∧
  matching "NOC" (VStr code) (regions (store_of x)) = [out ∪ r0] ∧
  attr (out ∪ r0) c = attr r0 c.
Proof.
  intros Hon Hone Hval Hkey Hc Hdef x. unfold x.
  rewrite (region_update_stored_run schema d PUT code r0) by done. cbn.
  rewrite Hval.
  rewrite (update_row_free Region (VStr code) (VStr code)) by (done || by left).
  cbn. split; [done|]. split.
  - apply (matching_replace_row Region (VStr code) (VStr code) r0);
      [done|done|by left].
  - apply validate_inr in Hval as [Hload _].
    rewrite attr_union.
    by rewrite (load_fields_omitted _ _ c _ _ Hload Hc Hdef).
Qed.

Lemma put_keeps_omitted_fields_witness :
  online db0 = true ∧
  matching "NOC" (VStr "GBR") (regions db0) = [GBR] ∧
  validate false (Fields Region) GBR_json = inr GBR_json ∧
  attr (GBR_json ∪ GBR) "NOC" = VStr "GBR" ∧
  GBR_json !! "notes" = None ∧
  let x := serve (region_update Fields PUT "GBR" GBR_json) db0 in
  response_of x
  = {| status := 200;
       payload := message ("Region " +:+ "GBR" +:+ " updated") |} ∧
  matching "NOC" (VStr "GBR") (regions (store_of x)) = [GBR_json ∪ GBR] ∧
  attr (GBR_json ∪ GBR) "notes" = VStr "London 2012".
Proof.
  split; [reflexivity|]. split; [reflexivity|].
  split; [vm_compute; reflexivity|]. split; [vm_compute; reflexivity|].
  split; [vm_compute; reflexivity|].
  apply (put_keeps_omitted_fields Fields db0 "GBR" GBR GBR_json GBR_json
           "notes").
  - reflexivity.
  - reflexivity.
  - vm_compute; reflexivity.
  - vm_compute; reflexivity.
  - vm_compute; reflexivity.
  - intros f Hf Hname. cbn in Hf.
    repeat (apply elem_of_cons in Hf as [->|Hf]; [done|]).
    by apply elem_of_nil in Hf.
Defined.

(** C7, as amended: for a stored region and a body that passes partial
    validation, when the key the region ends up with is its own code or a
    code not in use, PATCH /regions/{code} answers 200, writes each supplied
    field with its deserialised value, leaves every other field of the region
    and every other row as it was, and GET on the resulting code returns the
    region so changed. *)
Theorem patch_updates_supplied_fields (schema : entity -> list field)
    (d : database) (code code' : string) (r0 region_json out : row) :
  online d = true →
  matching "NOC" (VStr code) (regions d) = [r0] →
  validate true (schema Region) region_json = inr out →
  attr (out ∪ r0) "NOC" = VStr code' →
  code' = code ∨ VStr code' ∉ keys Region (regions d) →
  let r := out ∪ r0 in
  let x := serve (region_update schema PATCH code region_json) d in
  response_of x
  = {| status := 200;
       payload := message ("Region " +:+ code +:+ " updated") |} ∧
  store_of x
  = set_table Region (replace_row Region (VStr code) r (regions d)) d ∧
  dom out = dom region_json ∧
  (∀ c v, out !! c = Some v →
          r !! c = Some v ∧
          ∃ f raw, f ∈ schema Region ∧ fname f = c ∧
                   region_json !! c = Some raw ∧
                   field_deserialize f (Some raw) = inr (Some v)) ∧
  (∀ c, region_json !! c = None → r !! c = r0 !! c) ∧
  response_of (serve (get_region schema code') (store_of x))
  = {| status := 200; payload := JObject (dump (schema Region) r) |}.
Proof.
  intros Hon Hone Hval Hkey Hfree r x. unfold x, r.
  rewrite (region_update_stored_run schema d PATCH code r0) by done. cbn.
  rewrite Hval.
  assert (VStr code' = VStr code ∨ VStr code' ∉ keys Region (regions d))
    as Hfree' by (destruct Hfree as [->|]; auto).
  rewrite (update_row_free Region (VStr code) (VStr code')) by done.
  cbn. pose proof (validate_partial_dom _ _ _ Hval) as Hdom.
  apply validate_inr in Hval as [Hload _].
  split; [done|]. split; [done|]. split; [done|]. split; [|split].
  - intros c v Hv. split.
    + by apply lookup_union_Some_l.
    + by eapply load_fields_partial_value.
  - intros c Hc. apply lookup_union_r.
    apply not_elem_of_dom. rewrite Hdom. by apply not_elem_of_dom.
  - unfold serve, get_region, bind.
    rewrite (filter_by_pk schema Region) by (by destruct d). cbn.
    replace (table Region (set_table Region _ d)) with
      (replace_row Region (VStr code) (out ∪ r0) (regions d)) by done.
    by rewrite (matching_replace_row Region (VStr code) (VStr code') r0).
Qed.

Lemma patch_updates_supplied_fields_witness :
  online db0 = true ∧
  matching "NOC" (VStr "GBR") (regions db0) = [GBR] ∧
  validate true (Fields Region) name_json = inr name_json ∧
  attr (name_json ∪ GBR) "NOC" = VStr "GBR" ∧
  response_of (serve (region_update Fields PATCH "GBR" name_json) db0)
  = {| status := 200;
       payload := message ("Region " +:+ "GBR" +:+ " updated") |} ∧
  response_of
    (serve (get_region Fields "GBR")
       (store_of (serve (region_update Fields PATCH "GBR" name_json) db0)))
  = {| status := 200;
       payload := JObject (dump (Fields Region) (name_json ∪ GBR)) |}.
Proof.
  split; [reflexivity|]. split; [reflexivity|].
  split; [vm_compute; reflexivity|]. split; [vm_compute; reflexivity|].
  destruct (patch_updates_supplied_fields Fields db0 "GBR" "GBR" GBR
              name_json name_json) as (Hresp & _ & _ & _ & _ & Hget).
  - reflexivity.
  - reflexivity.
  - vm_compute; reflexivity.
  - vm_compute; reflexivity.
  - by left.
  - split; [exact Hresp | exact Hget].
Defined.

(** C7, as stated, fails: a body that moves the region onto the code of
    another stored region is refused by the store, and a body with a value of
    the wrong type is refused by the schema; in both cases no field of the
    region changes. *)
Lemma patch_refused_bodies :
  matching "NOC" (VStr "GBR") (regions db0) = [GBR] ∧
  validate true (Fields Region) rekey_json = inr rekey_json ∧
  serve (region_update Fields PATCH "GBR" rekey_json) db0
  = ({| status := 500; payload := Html "Internal Server Error" |},
     db0, [OpSelect Region; OpAdd]) ∧
  serve (region_update Fields PATCH "GBR" bad_json) db0
  = ({| status := 400;
        payload := JErrors {[ "region" := ["Not a valid string."] ]} |},
     db0, [OpSelect Region]).
Proof.
  split; [reflexivity|]. split; [vm_compute; reflexivity|].
  split; vm_compute; reflexivity.
Qed.

(** ** DELETE *)

Lemma matching_delete_row (e : entity) (k : value) (t : list row) :
  matching (pk e) k (delete_row e k t) = [].
Proof.
  unfold matching, delete_row. induction t as [|a t IH]; [done|].
  rewrite filter_cons. case_decide as Ha.
  - by rewrite filter_cons_False.
  - done.
Qed.

Lemma orphan_unreferenced (a : referential_action) (k : value)
    (es : list row) :
  matching "NOC" k es = [] → orphan a k es = Some es.
Proof.
  intros Hnone. unfold orphan. destruct a.
  - done.
  - by rewrite decide_True.
  - f_equal. rewrite <- (list_fmap_id es) at 2.
    apply list_fmap_ext. intros i ev Hev. cbn.
    case_decide as Hk; [|done].
    assert (ev ∈ matching "NOC" k es) as Hin.
    { unfold matching. apply list_elem_of_filter. split; [done|].
      by eapply list_elem_of_lookup_2. }
    rewrite Hnone in Hin. by apply elem_of_nil in Hin.
  - f_equal. unfold matching in Hnone.
    induction es as [|ev es IH]; [done|].
    rewrite filter_cons in Hnone. case_decide as Hk; [done|].
    rewrite filter_cons_True by done. f_equal. by apply IH.
Qed.

Section Delete.

Variable schema : entity -> list field.

Lemma delete_region_run (d : database) (noc_code : string) :
  online d = true →
  serve (delete_region schema noc_code) d
  = match matching "NOC" (VStr noc_code) (regions d) with
    | [] => (resource_not_found NoResultFound_str, d, [OpSelect Region])
    | [r0] =>
        match orphan (ondelete d) (VStr noc_code) (events d) with
        | Some es =>
            ({| status := 200;
                payload := message ("Region " +:+ noc_code +:+ " deleted") |},
             {| regions := delete_row Region (VStr noc_code) (regions d);
                events := es; online := online d; ondelete := ondelete d |},
             [OpSelect Region; OpDelete; OpCommit])
        | None =>
            ({| status := 500; payload := Html "Internal Server Error" |},
             d, [OpSelect Region; OpDelete])
        end
    | _ =>
        ({| status := 500; payload := Html "Internal Server Error" |},
         d, [OpSelect Region])
    end.
Proof.
  intros Hon. unfold serve, delete_region. unfold bind at 1.
  rewrite (filter_by_pk schema Region) by done. cbn -[bind].
  destruct (matching "NOC" (VStr noc_code) (regions d)) as [|r0 [|r1 rows]]
    eqn:Hrows; [by destruct d| |by destruct d].
  assert (attr r0 "NOC" = VStr noc_code) as Hkey.
  { apply (matching_key _ _ (regions d)). rewrite Hrows. left. }
  unfold bind, session_delete, session_commit. cbn. rewrite Hon. cbn.
  rewrite Hkey.
  destruct (orphan (ondelete d) (VStr noc_code) (events d)) as [es|]; cbn;
    by destruct d.
Qed.

Lemma delete_event_run (d : database) (event_id : Z) :
  online d = true →
  serve (delete_event schema event_id) d
  = match matching "id" (VInt event_id) (events d) with
    | [] => (resource_not_found NoResultFound_str, d, [OpSelect Event])
    | [r0] =>
        ({| status := 200;
            payload := message ("Event " +:+ pretty event_id
                                +:+ " deleted") |},
         set_table Event (delete_row Event (VInt event_id) (events d)) d,
         [OpSelect Event; OpDelete; OpCommit])
    | _ =>
        ({| status := 500; payload := Html "Internal Server Error" |},
         d, [OpSelect Event])
    end.
Proof.
  intros Hon. unfold serve, delete_event. unfold bind at 1.
  rewrite (filter_by_pk schema Event) by done. cbn -[bind].
  destruct (matching "id" (VInt event_id) (events d)) as [|r0 [|r1 rows]]
    eqn:Hrows; [by destruct d| |by destruct d].
  assert (attr r0 "id" = VInt event_id) as Hkey.
  { apply (matching_key _ _ (events d)). rewrite Hrows. left. }
  unfold bind, session_delete, session_commit. cbn. rewrite Hon. cbn.
  by rewrite Hkey.
Qed.

(** A lookup on a store that cannot be reached ends the request there. *)
Lemma lookup_offline (d : database) (e : entity) (col : string) (v : value)
    (k : list row → M response) :
  online d = false →
  ∃ tr, serve (do rows <- filter_by schema e col v; k rows) d
        = ({| status := 500; payload := Html "Internal Server Error" |},
           d, tr).
Proof.
  intros Hoff. unfold serve, bind.
  destruct (filter_by_offline schema e col v
              {| store := d; pending := []; trace := [] |} Hoff)
    as (ex & -> & [-> | ->]); by eexists.
Qed.

End Delete.

(** ** PATCH on an event *)

Lemma event_update_run (schema : entity -> list field) (d : database)
    (event_id : Z) (event_json : row) :
  "event_id" ∈ columns schema Event →
  online d = true →
  serve (event_update schema event_id event_json) d
  = match matching "event_id" (VInt event_id) (events d) with
    | _ :: _ :: _ =>
        ({| status := 500; payload := Html "Internal Server Error" |},
         d, [OpSelect Event])
    | rows =>
        match validate true (schema Event) event_json with
        | inl msgs => (register_validation_error msgs, d, [OpSelect Event])
        | inr out =>
            match write Event out
                    (match rows with
                     | [r0] => Some r0
                     | _ => found Event out d
                     end) (events d) with
            | None =>
                ({| status := 500; payload := Html "Internal Server Error" |},
                 d, [OpSelect Event; OpAdd])
            | Some (t, _) =>
                (match matching "event_id" (VInt event_id) t with
                 | [] => {| status := 200; payload := JObject ∅ |}
                 | [r] =>
                     {| status := 200;
                        payload := JObject (dump (schema Event) r) |}
                 | _ =>
                     {| status := 500;
                        payload := Html "Internal Server Error" |}
                 end,
                 set_table Event t d,
                 [OpSelect Event; OpAdd; OpCommit; OpSelect Event])
            end
        end
    end.
Proof.
  intros Hcol Hon.
  assert (∀ w, online (store w) = true →
            filter_by schema Event "event_id" (VInt event_id) w
            = (Ok (matching "event_id" (VInt event_id) (events (store w))),
               log (OpSelect Event) w)) as Hsel.
  { intros w Hw. unfold filter_by, select_by.
    rewrite decide_True by done. by rewrite Hw. }
  unfold serve, event_update. unfold bind at 1.
  rewrite Hsel by done. cbn -[bind load filter_by].
  assert (∀ (tgt : option row) out,
    (let '(r, w) :=
       (do_ session_add (loaded Event out tgt);
        do_ session_commit;
        do rows' <- filter_by schema Event "event_id" (VInt event_id);
        do updated_event <- scalar_one_or_none Event rows';
        ret {| status := 200;
               payload := JObject (from_option (dump (schema Event) ∘ attrs)
                                     ∅ updated_event) |})
         {| store := d; pending := []; trace := [OpSelect Event] |} in
     (match r with Ok resp => resp | Raise e => handle_exception e end,
      store w, trace w))
    = match write Event out tgt (events d) with
      | None =>
          ({| status := 500; payload := Html "Internal Server Error" |},
           d, [OpSelect Event; OpAdd])
      | Some (t, _) =>
          (match matching "event_id" (VInt event_id) t with
           | [] => {| status := 200; payload := JObject ∅ |}
           | [r] =>
               {| status := 200;
                  payload := JObject (dump (schema Event) r) |}
           | _ =>
               {| status := 500; payload := Html "Internal Server Error" |}
           end,
           set_table Event t d,
           [OpSelect Event; OpAdd; OpCommit; OpSelect Event])
      end) as Htail.
  { intros tgt out.
    rewrite (add_commit Event out tgt d _
               (λ _, do rows' <- filter_by schema Event "event_id"
                                   (VInt event_id);
                     do updated_event <- scalar_one_or_none Event rows';
                     ret _)) by done.
    cbn -[bind filter_by].
    destruct (write Event out tgt (events d)) as [[t r]|]; [|done].
    unfold bind at 1. rewrite Hsel by done. cbn.
    by destruct (matching "event_id" (VInt event_id) t)
      as [|r2 [|r3 rows']]. }
  destruct (matching "event_id" (VInt event_id) (events d))
    as [|r0 [|r1 rows]] eqn:Hrows.
  - unfold bind at 1. cbn -[bind load filter_by].
    unfold bind at 1. rewrite load_lookup by done.
    destruct (validate true (schema Event) event_json) as [msgs|out];
      [by destruct d|].
    unfold log. cbn [store pending trace app]. apply Htail.
  - unfold bind at 1. cbn -[bind load filter_by].
    unfold bind at 1. rewrite load_onto.
    destruct (validate true (schema Event) event_json) as [msgs|out];
      [by destruct d|].
    unfold log. cbn [store pending trace app]. apply (Htail (Some r0)).
  - by destruct d.
Qed.

(** ** Mutating calls commit before they answer *)

Lemma fails_400 (r : response) : status r = 400 → ¬ success r.
Proof. unfold success. intros ->. lia. Qed.

Lemma fails_404 (r : response) : status r = 404 → ¬ success r.
Proof. unfold success. intros ->. lia. Qed.

Lemma fails_500 (r : response) : status r = 500 → ¬ success r.
Proof. unfold success. intros ->. lia. Qed.

Lemma replace_row_elem (e : entity) (k0 : value) (r r0 : row)
    (t : list row) :
  r0 ∈ t → attr r0 (pk e) = k0 → r ∈ replace_row e k0 r t.
Proof.
  intros Hin Hk. unfold replace_row. apply list_elem_of_fmap.
  exists r0. by rewrite decide_True.
Qed.

Lemma carries_union (e : entity) (out r0 : row) : carries e out (out ∪ r0).
Proof.
  split.
  - intros c v _ Hc. by apply lookup_union_Some_l.
  - apply attr_union_set.
Qed.

(** What the store takes from a write holds the loaded values. *)
Lemma write_carries (e : entity) (out : row) (tgt : option row)
    (t t' : list row) (r : row) :
  (∀ r0, tgt = Some r0 → r0 ∈ t) →
  write e out tgt t = Some (t', r) →
  r ∈ t' ∧ carries e out r.
Proof.
  intros Htgt. unfold write. destruct tgt as [r0|].
  - unfold update_row. repeat case_decide; try done.
    intros [= <- <-]. split; [|apply carries_union].
    apply replace_row_elem with r0; [by apply Htgt|done].
  - unfold insert_row.
    destruct (attr out (pk e)) as [|s|n] eqn:Hk.
    + destruct (autoincrement e); [|done]. intros [= <- <-]. split.
      * apply elem_of_app. right. left.
      * split; [|by rewrite Hk].
        intros c v Hc Hv. by rewrite lookup_insert_ne.
    + case_decide; [done|]. intros [= <- <-]. split.
      * apply elem_of_app. right. left.
      * split; [by intros c v _ Hv|done].
    + case_decide; [done|]. intros [= <- <-]. split.
      * apply elem_of_app. right. left.
      * split; [by intros c v _ Hv|done].
Qed.

Lemma found_elem (e : entity) (out : row) (d : database) (r0 : row) :
  found e out d = Some r0 → r0 ∈ table e d.
Proof. by intros (? & _)%found_in. Qed.

Section Commit.

Variable schema : entity -> list field.

Lemma add_region_commit (d : database) (json_data : row) :
  outcome_ok schema (PostRegion json_data)
    (serve (add_region schema json_data) d).
Proof.
  unfold outcome_ok. destruct (online d) eqn:Hon.
  - rewrite add_region_run by done.
    destruct (validate false (schema Region) json_data) as [msgs|out]
      eqn:Hval; [by intros ?%fails_400|].
    destruct (write Region out (found Region out d) (regions d))
      as [[t r]|] eqn:Hw; [|by intros ?%fails_500].
    intros _. split; [done|]. split; [done|].
    destruct (write_carries Region out _ _ _ _ (found_elem Region out d) Hw)
      as [Hin Hcar].
    exists r. split; [|done]. by exists out.
  - destruct (post_offline schema d Region json_data Hon)
      as (resp & tr & -> & [H|H]); [by intros ?%fails_400|by intros ?%fails_500].
Qed.

Lemma add_event_commit (d : database) (ev_json : row) :
  outcome_ok schema (PostEvent ev_json) (serve (add_event schema ev_json) d).
Proof.
  unfold outcome_ok. destruct (online d) eqn:Hon.
  - rewrite add_event_run by done.
    destruct (validate false (schema Event) ev_json) as [msgs|out]
      eqn:Hval; [by intros ?%fails_400|].
    destruct (write Event out (found Event out d) (events d))
      as [[t r]|] eqn:Hw; [|by intros ?%fails_500].
    intros _. split; [done|]. split; [done|].
    destruct (write_carries Event out _ _ _ _ (found_elem Event out d) Hw)
      as [Hin Hcar].
    exists r. split; [|done]. by exists out.
  - destruct (post_offline schema d Event ev_json Hon)
      as (resp & tr & -> & [H|H]); [by intros ?%fails_400|by intros ?%fails_500].
Qed.

Lemma delete_region_commit (d : database) (noc_code : string) :
  outcome_ok schema (DeleteRegion noc_code)
    (serve (delete_region schema noc_code) d).
Proof.
  unfold outcome_ok. destruct (online d) eqn:Hon.
  - rewrite delete_region_run by done.
    destruct (matching "NOC" (VStr noc_code) (regions d)) as [|r0 [|r1 rows]];
      [by intros ?%fails_404| |by intros ?%fails_500].
    destruct (orphan (ondelete d) (VStr noc_code) (events d)) as [es|];
      [|by intros ?%fails_500].
    intros _. split; [done|]. split; [done|]. split; [|done].
    apply (matching_delete_row Region).
  - destruct (lookup_offline schema d Region "NOC" (VStr noc_code)
                (λ rows, do region <- scalar_one Region rows;
                         do_ session_delete region;
                         do_ session_commit;
                         ret {| status := 200;
                                payload := message ("Region " +:+ noc_code
                                                    +:+ " deleted") |}) Hon)
      as [tr Hrun].
    unfold delete_region. rewrite Hrun. by intros ?%fails_500.
Qed.

Lemma delete_event_commit (d : database) (event_id : Z) :
  outcome_ok schema (DeleteEvent event_id)
    (serve (delete_event schema event_id) d).
Proof.
  unfold outcome_ok. destruct (online d) eqn:Hon.
  - rewrite delete_event_run by done.
    destruct (matching "id" (VInt event_id) (events d)) as [|r0 [|r1 rows]];
      [by intros ?%fails_404| |by intros ?%fails_500].
    intros _. split; [done|]. split; [done|]. split; [|done].
    apply (matching_delete_row Event).
  - destruct (lookup_offline schema d Event "id" (VInt event_id)
                (λ rows, do event <- scalar_one Event rows;
                         do_ session_delete event;
                         do_ session_commit;
                         ret {| status := 200;
                                payload := message ("Event "
                                                    +:+ pretty event_id
                                                    +:+ " deleted") |}) Hon)
      as [tr Hrun].
    unfold delete_event. rewrite Hrun. by intros ?%fails_500.
Qed.

Lemma region_update_offline (d : database) (m : method) (code : string)
    (body : row) :
  online d = false →
  ∃ tr, serve (region_update schema m code body) d
        = ({| status := 500; payload := Html "Internal Server Error" |},
           d, tr).
Proof. intros Hoff. unfold region_update. by apply lookup_offline. Qed.

Lemma region_update_many (d : database) (m : method) (code : string)
    (body : row) (r0 r1 : row) (rows : list row) :
  online d = true →
  matching "NOC" (VStr code) (regions d) = r0 :: r1 :: rows →
  serve (region_update schema m code body) d
  = ({| status := 500; payload := Html "Internal Server Error" |},
     d, [OpSelect Region]).
Proof.
  intros Hon Hrows. unfold serve, region_update, bind.
  rewrite (filter_by_pk schema Region) by done. cbn.
  rewrite Hrows. by destruct d.
Qed.

Lemma region_update_commit (d : database) (m : method) (code : string)
    (body : row) :
  (m = PUT → matching "NOC" (VStr code) (regions d) ≠ []) →
  let x := serve (region_update schema m code body) d in
  success (response_of x) →
  trace_of x = [OpSelect Region; OpAdd; OpCommit] ∧
  (∃ r, stored schema Region (partial_of m) body (store_of x) r) ∧
  payload (response_of x) = message ("Region " +:+ code +:+ " updated").
Proof.
  intros Hcov x. unfold x. clear x.
  destruct (online d) eqn:Hon.
  - destruct (matching "NOC" (VStr code) (regions d)) as [|r0 [|r1 rows]]
      eqn:Hrows.
    + destruct m; [by destruct Hcov|].
      rewrite patch_unknown_code_run by done.
      destruct (validate true (schema Region) body) as [msgs|out] eqn:Hval;
        [by intros ?%fails_400|].
      destruct (write Region out (found Region out d) (regions d))
        as [[t r]|] eqn:Hw; [|by intros ?%fails_500].
      intros _. split; [done|]. split; [|done].
      destruct (write_carries Region out _ _ _ _ (found_elem Region out d) Hw)
        as [Hin Hcar].
      exists r, out. by destruct d.
    + rewrite (region_update_stored_run schema d m code r0) by done.
      assert (attr r0 "NOC" = VStr code ∧ r0 ∈ regions d) as [Hkey Hr0].
      { assert (r0 ∈ matching "NOC" (VStr code) (regions d)) as Hin
          by (rewrite Hrows; left).
        unfold matching in Hin. by apply list_elem_of_filter in Hin. }
      destruct (validate _ (schema Region) body) as [msgs|out] eqn:Hval;
        [by intros ?%fails_400|].
      destruct (update_row Region (VStr code) (out ∪ r0) (regions d))
        as [[t r]|] eqn:Hw; [|by intros ?%fails_500].
      intros _. split; [done|]. split; [|done].
      destruct (write_carries Region out (Some r0) (regions d) t r)
        as [Hin Hcar].
      { by intros ? [= <-]. }
      { unfold write. cbn. by rewrite Hkey. }
      exists r, out. by destruct d.
    + rewrite (region_update_many d m code body r0 r1 rows) by done.
      by intros ?%fails_500.
  - destruct (region_update_offline d m code body Hon) as [tr ->].
    by intros ?%fails_500.
Qed.

Lemma event_update_commit (d : database) (event_id : Z) (body : row) :
  outcome_ok schema (PatchEvent event_id body)
    (serve (event_update schema event_id body) d).
Proof.
  unfold outcome_ok.
  destruct (decide ("event_id" ∈ columns schema Event)) as [Hcol|Hcol].
  - destruct (online d) eqn:Hon.
    + rewrite event_update_run by done.
      set (rows := matching "event_id" (VInt event_id) (events d)).
      assert (∀ r0, r0 ∈ rows → r0 ∈ events d) as Hrows.
      { intros r0 Hin. unfold rows, matching in Hin.
        by apply list_elem_of_filter in Hin as [_ ?]. }
      assert (∀ (tgt : row → option row),
        (∀ out r0, tgt out = Some r0 → r0 ∈ events d) →
        let x :=
          match validate true (schema Event) body with
          | inl msgs => (register_validation_error msgs, d, [OpSelect Event])
          | inr out =>
              match write Event out (tgt out) (events d) with
              | None =>
                  ({| status := 500;
                      payload := Html "Internal Server Error" |},
                   d, [OpSelect Event; OpAdd])
              | Some (t, _) =>
                  (match matching "event_id" (VInt event_id) t with
                   | [] => {| status := 200; payload := JObject ∅ |}
                   | [r] =>
                       {| status := 200;
                          payload := JObject (dump (schema Event) r) |}
                   | _ =>
                       {| status := 500;
                          payload := Html "Internal Server Error" |}
                   end,
                   set_table Event t d,
                   [OpSelect Event; OpAdd; OpCommit; OpSelect Event])
              end
          end in
        success (response_of x) →
        committed (trace_of x) = true ∧
        refetched (trace_of x) = true ∧
        reflects schema (PatchEvent event_id body) (response_of x)
          (store_of x)) as Hgen.
      { intros tgt Htgt x. unfold x. clear x.
        destruct (validate true (schema Event) body) as [msgs|out] eqn:Hval;
          [by intros ?%fails_400|].
        destruct (write Event out (tgt out) (events d)) as [[t r]|] eqn:Hw;
          [|by intros ?%fails_500].
        destruct (write_carries Event out (tgt out) _ _ _ (Htgt out) Hw)
          as [Hin Hcar].
        unfold response_of, store_of, trace_of. cbn.
        destruct (matching "event_id" (VInt event_id) t)
          as [|r2 [|r3 rows']] eqn:Hrows'.
        - intros _. split; [done|]. split; [done|]. rewrite ?Hrows'.
          split; [|done]. by exists r, out.
        - intros _. split; [done|]. split; [done|]. rewrite ?Hrows'.
          split; [|done]. by exists r, out.
        - by intros ?%fails_500. }
      destruct rows as [|r0 [|r1 rows']] eqn:Hr.
      * apply (Hgen (λ out, found Event out d)).
        intros out r1. apply found_elem.
      * apply (Hgen (λ _, Some r0)). intros _ ? [= <-]. apply Hrows. left.
      * by intros ?%fails_500.
    + unfold serve, event_update, bind, filter_by, select_by.
      rewrite decide_True by done. cbn. rewrite Hon.
      by intros ?%fails_500.
  - unfold serve, event_update, bind, filter_by, select_by.
    rewrite decide_False by done. by intros ?%fails_500.
Qed.

End Commit.

(** C4, as amended: every POST, PATCH and DELETE on regions and events,
    and every PUT on a stored region, that answers with a success status has
    committed, with nothing added or deleted after the commit; the change is
    in the store the request leaves and the answer agrees with that store.
    A select after the commit is run by PATCH on an event and by no other
    call. *)
Theorem mutations_commit (schema : entity -> list field) (d : database)
    (m : mutation) :
  ¬ creating_put m d →
  success (response_of (serve (view schema m) d)) →
  committed (trace_of (serve (view schema m) d)) = true ∧
  refetched (trace_of (serve (view schema m) d)) = is_event_patch m ∧
  reflects schema m (response_of (serve (view schema m) d))
    (store_of (serve (view schema m) d)).
Proof.
  intros Hcov Hok. destruct m.
  - by apply add_region_commit.
  - by apply add_event_commit.
  - destruct (region_update_commit schema d PUT noc_code region_json)
      as (Htr & Hst & Hpay); [done|done|].
    cbn. by rewrite Htr.
  - destruct (region_update_commit schema d PATCH noc_code region_json)
      as (Htr & Hst & Hpay); [done|done|].
    cbn. by rewrite Htr.
  - by apply event_update_commit.
  - by apply delete_region_commit.
  - by apply delete_event_commit.
Qed.

Lemma success_200 (x : response * database * list op) :
  status (response_of x) = 200 → success (response_of x).
Proof. unfold success. intros ->. lia. Qed.

Lemma mutations_commit_witness :
  (¬ creating_put (PatchRegion "GBR" name_json) db0 ∧
   success (response_of (serve (view Fields (PatchRegion "GBR" name_json))
                           db0)) ∧
   committed (trace_of (serve (view Fields (PatchRegion "GBR" name_json))
                          db0)) = true ∧
   reflects Fields (PatchRegion "GBR" name_json)
     (response_of (serve (view Fields (PatchRegion "GBR" name_json)) db0))
     (store_of (serve (view Fields (PatchRegion "GBR" name_json)) db0))) ∧
  (¬ creating_put (PatchEvent 7 Games7_json) db7 ∧
   success (response_of
              (serve (view FieldsWithEventId (PatchEvent 7 Games7_json))
                 db7)) ∧
   refetched (trace_of
                (serve (view FieldsWithEventId (PatchEvent 7 Games7_json))
                   db7)) = true ∧
   reflects FieldsWithEventId (PatchEvent 7 Games7_json)
     (response_of
        (serve (view FieldsWithEventId (PatchEvent 7 Games7_json)) db7))
     (store_of
        (serve (view FieldsWithEventId (PatchEvent 7 Games7_json)) db7))).
Proof.
  assert (success (response_of
            (serve (view Fields (PatchRegion "GBR" name_json)) db0)))
    as Hok by (apply success_200; vm_compute; reflexivity).
  assert (success (response_of
            (serve (view FieldsWithEventId (PatchEvent 7 Games7_json)) db7)))
    as Hok' by (apply success_200; vm_compute; reflexivity).
  split.
  - split; [by intros []|]. split; [exact Hok|].
    destruct (mutations_commit Fields db0 (PatchRegion "GBR" name_json)
                (λ H : False, H) Hok) as (Hc & _ & Hr).
    split; [exact Hc | exact Hr].
  - split; [by intros []|]. split; [exact Hok'|].
    destruct (mutations_commit FieldsWithEventId db7
                (PatchEvent 7 Games7_json) (λ H : False, H) Hok')
      as (_ & Hf & Hr).
    split; [exact Hf | exact Hr].
Defined.

(** C4, as stated, fails twice: PUT on a code that is not stored answers 200
    without a commit, and PATCH on a region answers 200 without a select
    after its commit. *)
Lemma success_without_commit_or_refetch :
  (status (response_of (serve (view Fields (PutRegion "ZZZ" ZZZ_json)) db0))
   = 200 ∧
   committed (trace_of (serve (view Fields (PutRegion "ZZZ" ZZZ_json)) db0))
   = false) ∧
  (status (response_of (serve (view Fields (PatchRegion "GBR" name_json))
                          db0)) = 200 ∧
   is_patch (PatchRegion "GBR" name_json) = true ∧
   refetched (trace_of (serve (view Fields (PatchRegion "GBR" name_json))
                          db0)) = false).
Proof.
  split; [split|split; [|split]]; vm_compute; reflexivity.
Qed.

(** With an [event_id] attribute declared, PATCH on an event does commit,
    selects the event again and returns it as stored. *)
Example event_update_refetches :
  serve (event_update FieldsWithEventId 7 Games7_json) db7
  = ({| status := 200;
        payload := JObject (dump (FieldsWithEventId Event)
                              (Games7_json ∪ Games')) |},
     set_table Event [Games7_json ∪ Games'] db7,
     [OpSelect Event; OpAdd; OpCommit; OpSelect Event]).
Proof. vm_compute; reflexivity. Qed.
(** * Further properties of the handlers *)

(** X1: the four GET handlers only read: whatever the store and the key,
    the store after the request is the store before it and the session ran
    no add, delete or commit. *)
Theorem reads_change_nothing (schema : entity -> list field) (d : database)
    (code : string) (event_id : Z) :
  read_only d (serve (get_regions schema) d) ∧
  read_only d (serve (get_region schema code) d) ∧
  read_only d (serve (get_events schema) d) ∧
  read_only d (serve (get_event schema event_id) d).
Proof.
  unfold read_only, serve, get_regions, get_region, get_events, get_event,
    try_except, bind, filter_by, select_by, select_all, scalar_one.
  cbn. repeat split.
  all: repeat case_decide; cbn; destruct (online d); cbn; try done.
  all: by destruct (matching _ _ _) as [|? [|? ?]].
Qed.

(** X2: on a store that answers, GET /regions and GET /events answer 200
    with the dump of every stored row, in table order (the empty array for an
    empty table). *)
Theorem list_endpoints_list_all (schema : entity -> list field)
    (d : database) :
  online d = true →
  response_of (serve (get_regions schema) d)
  = {| status := 200;
       payload := JArray (dump (schema Region) <$> regions d) |} ∧
  response_of (serve (get_events schema) d)
  = {| status := 200;
       payload := JArray (dump (schema Event) <$> events d) |}.
Proof.
  intros Hon.
  unfold serve, get_regions, get_events, try_except, bind, select_all. cbn.
  by rewrite Hon.
Qed.

Lemma matching_app (col : string) (v : value) (t1 t2 : list row) :
  matching col v (t1 ++ t2) = matching col v t1 ++ matching col v t2.
Proof. unfold matching. apply filter_app. Qed.

Lemma matching_singleton (col : string) (v : value) (r : row) :
  attr r col = v → matching col v [r] = [r].
Proof. intros Hr. unfold matching. by rewrite filter_cons_True. Qed.

Lemma foldr_max_ge (l : list Z) (x : Z) : x ∈ l → x ≤ foldr Z.max 0 l.
Proof.
  induction l as [|a l IH]; [by intros ?%elem_of_nil|].
  intros [->|Hin]%elem_of_cons; cbn; [lia|]. specialize (IH Hin). lia.
Qed.

Lemma next_id_fresh (e : entity) (t : list row) :
  VInt (next_id e t) ∉ keys e t.
Proof.
  intros Hin.
  assert (next_id e t ≤ foldr Z.max 0 (int_key <$> keys e t)) as Hle.
  { apply foldr_max_ge. apply list_elem_of_fmap.
    exists (VInt (next_id e t)). by split. }
  unfold next_id in Hle. lia.
Qed.

Lemma attr_insert (r : row) (c : string) (v : value) :
  attr (<[c := v]> r) c = v.
Proof. unfold attr. by rewrite lookup_insert_eq. Qed.

Lemma matching_delete_row_other (e : entity) (k v : value) (t : list row) :
  v ≠ k → matching (pk e) v (delete_row e k t) = matching (pk e) v t.
Proof.
  intros Hne. unfold matching, delete_row.
  induction t as [|a t IH]; [done|].
  rewrite !filter_cons. repeat case_decide; try done.
  - by rewrite filter_cons_True, IH.
  - by rewrite filter_cons_False.
  - congruence.
Qed.

Section RoundTrips.

Variable schema : entity -> list field.

(** Outcome of a lookup by primary key that finds nothing. *)
Lemma get_region_absent (d : database) (code : string) :
  online d = true →
  matching "NOC" (VStr code) (regions d) = [] →
  serve (get_region schema code) d
  = (resource_not_found NoResultFound_str, d, [OpSelect Region]).
Proof.
  intros Hon Habs. unfold serve, get_region, bind.
  rewrite (filter_by_pk schema Region) by done. cbn.
  rewrite Habs. by destruct d.
Qed.

Lemma get_region_found (d : database) (code : string) (r : row) :
  online d = true →
  matching "NOC" (VStr code) (regions d) = [r] →
  serve (get_region schema code) d
  = ({| status := 200; payload := JObject (dump (schema Region) r) |},
     d, [OpSelect Region]).
Proof.
  intros Hon Hone. unfold serve, get_region, bind.
  rewrite (filter_by_pk schema Region) by done. cbn.
  rewrite Hone. by destruct d.
Qed.

Lemma delete_region_absent (d : database) (code : string) :
  online d = true →
  matching "NOC" (VStr code) (regions d) = [] →
  serve (delete_region schema code) d
  = (resource_not_found NoResultFound_str, d, [OpSelect Region]).
Proof.
  intros Hon Habs. unfold serve, delete_region, bind.
  rewrite (filter_by_pk schema Region) by done. cbn.
  rewrite Habs. by destruct d.
Qed.

Lemma get_event_absent (d : database) (event_id : Z) :
  online d = true →
  matching "id" (VInt event_id) (events d) = [] →
  serve (get_event schema event_id) d
  = (resource_not_found NoResultFound_str, d, [OpSelect Event]).
Proof.
  intros Hon Habs. unfold serve, get_event, bind.
  rewrite (filter_by_pk schema Event) by done. cbn.
  rewrite Habs. by destruct d.
Qed.

Lemma get_event_found (d : database) (event_id : Z) (r : row) :
  online d = true →
  matching "id" (VInt event_id) (events d) = [r] →
  serve (get_event schema event_id) d
  = ({| status := 200; payload := JObject (dump (schema Event) r) |},
     d, [OpSelect Event]).
Proof.
  intros Hon Hone. unfold serve, get_event, bind.
  rewrite (filter_by_pk schema Event) by done. cbn.
  rewrite Hone. by destruct d.
Qed.

Lemma delete_event_absent (d : database) (event_id : Z) :
  online d = true →
  matching "id" (VInt event_id) (events d) = [] →
  serve (delete_event schema event_id) d
  = (resource_not_found NoResultFound_str, d, [OpSelect Event]).
Proof.
  intros Hon Habs. unfold serve, delete_event, bind.
  rewrite (filter_by_pk schema Event) by done. cbn.
  rewrite Habs. by destruct d.
Qed.

Lemma delete_region_found (d : database) (code : string) (r0 : row) :
  online d = true →
  matching "NOC" (VStr code) (regions d) = [r0] →
  unreferenced code d →
  serve (delete_region schema code) d
  = ({| status := 200;
        payload := message ("Region " +:+ code +:+ " deleted") |},
     set_table Region (delete_row Region (VStr code) (regions d)) d,
     [OpSelect Region; OpDelete; OpCommit]).
Proof.
  intros Hon Hone Hfree. rewrite delete_region_run by done.
  by rewrite Hone, orphan_unreferenced.
Qed.

Lemma delete_event_found (d : database) (event_id : Z) (r0 : row) :
  online d = true →
  matching "id" (VInt event_id) (events d) = [r0] →
  serve (delete_event schema event_id) d
  = ({| status := 200;
        payload := message ("Event " +:+ pretty event_id +:+ " deleted") |},
     set_table Event (delete_row Event (VInt event_id) (events d)) d,
     [OpSelect Event; OpDelete; OpCommit]).
Proof.
  intros Hon Hone. rewrite delete_event_run by done. by rewrite Hone.
Qed.

(** X3: POST /regions with a body that passes the schema and carries a
    code not in use stores the loaded body as a new row, answers 201 naming
    that code, and GET /regions/{code} then returns the stored body. *)
Theorem post_then_get_region (d : database) (json_data out : row)
    (code : string) :
  online d = true →
  validate false (schema Region) json_data = inr out →
  attr out "NOC" = VStr code →
  VStr code ∉ keys Region (regions d) →
  let d' := set_table Region (regions d ++ [out]) d in
  serve (add_region schema json_data) d
  = ({| status := 201;
        payload := message ("Region added with NOC= " +:+ code) |},
     d', [OpAdd; OpCommit]) ∧
  serve (get_region schema code) d'
  = ({| status := 200; payload := JObject (dump (schema Region) out) |},
     d', [OpSelect Region]).
Proof.
  intros Hon Hval Hkey Hfresh d'. split.
  - rewrite add_region_run by done. rewrite Hval.
    rewrite (found_fresh Region) by (cbn; by rewrite Hkey). cbn.
    rewrite insert_row_fresh by (rewrite Hkey; done).
    by rewrite Hkey.
  - apply get_region_found; [done|]. cbn.
    rewrite matching_app, (matching_fresh Region) by done.
    by rewrite matching_singleton.
Qed.

(** X4: POST /events with a body that passes the schema and carries no id
    stores the body under a generated id that no stored event has, answers
    201 naming that id, and GET /events/{id} then returns the stored event. *)
Theorem post_then_get_event (d : database) (ev_json out : row) :
  online d = true →
  validate false (schema Event) ev_json = inr out →
  attr out "id" = VNull →
  let n := next_id Event (events d) in
  let r := <["id" := VInt n]> out in
  let d' := set_table Event (events d ++ [r]) d in
  (VInt n ∉ keys Event (events d)) ∧
  serve (add_event schema ev_json) d
  = ({| status := 201;
        payload := message ("Event added with id= " +:+ pretty n) |},
     d', [OpAdd; OpCommit]) ∧
  serve (get_event schema n) d'
  = ({| status := 200; payload := JObject (dump (schema Event) r) |},
     d', [OpSelect Event]).
Proof.
  intros Hon Hval Hkey n r d'.
  pose proof (next_id_fresh Event (events d)) as Hfresh.
  split; [done|]. split.
  - rewrite add_event_run by done. rewrite Hval.
    assert (found Event out d = None) as ->
      by (unfold found; cbn; by rewrite Hkey).
    cbn. unfold insert_row. cbn. rewrite Hkey. cbn.
    by rewrite attr_insert.
  - apply get_event_found; [done|]. cbn.
    rewrite matching_app, (matching_fresh Event) by done.
    rewrite matching_singleton; [done|]. apply attr_insert.
Qed.

(** X5: DELETE /regions/{code} on a stored region that no event refers to
    answers 200 after one commit, whatever the store does with the events of
    a deleted region; afterwards GET and DELETE on the same code answer 404,
    and the rows under every other code and all events are as before. *)
Theorem delete_then_get_region (d : database) (code : string) (r0 : row) :
  online d = true →
  matching "NOC" (VStr code) (regions d) = [r0] →
  unreferenced code d →
  let d' := set_table Region (delete_row Region (VStr code) (regions d)) d in
  serve (delete_region schema code) d
  = ({| status := 200;
        payload := message ("Region " +:+ code +:+ " deleted") |},
     d', [OpSelect Region; OpDelete; OpCommit]) ∧
  status (response_of (serve (get_region schema code) d')) = 404 ∧
  status (response_of (serve (delete_region schema code) d')) = 404 ∧
  ∀ code', code' ≠ code →
    matching "NOC" (VStr code') (regions d')
    = matching "NOC" (VStr code') (regions d).
Proof.
  intros Hon Hone Hfree d'.
  assert (matching "NOC" (VStr code) (regions d') = []) as Hgone
    by apply (matching_delete_row Region).
  split; [|split; [|split]].
  - by apply delete_region_found with r0.
  - by rewrite get_region_absent.
  - by rewrite delete_region_absent.
  - intros code' Hne. apply (matching_delete_row_other Region). congruence.
Qed.

(** X6: DELETE /events/{id} on a stored event answers 200 after one
    commit; afterwards GET and DELETE on the same id answer 404, and the rows
    under every other id are as before. *)
Theorem delete_then_get_event (d : database) (event_id : Z) (r0 : row) :
  online d = true →
  matching "id" (VInt event_id) (events d) = [r0] →
  let d' := set_table Event (delete_row Event (VInt event_id) (events d)) d in
  serve (delete_event schema event_id) d
  = ({| status := 200;
        payload := message ("Event " +:+ pretty event_id +:+ " deleted") |},
     d', [OpSelect Event; OpDelete; OpCommit]) ∧
  status (response_of (serve (get_event schema event_id) d')) = 404 ∧
  status (response_of (serve (delete_event schema event_id) d')) = 404 ∧
  ∀ id', id' ≠ event_id →
    matching "id" (VInt id') (events d')
    = matching "id" (VInt id') (events d).
Proof.
  intros Hon Hone d'.
  assert (matching "id" (VInt event_id) (events d') = []) as Hgone
    by apply (matching_delete_row Event).
  split; [|split; [|split]].
  - by apply delete_event_found with r0.
  - by rewrite get_event_absent.
  - by rewrite delete_event_absent.
  - intros id' Hne. apply (matching_delete_row_other Event). congruence.
Qed.

End RoundTrips.

Lemma load_fields_partial_empty (fs : list field) :
  load_fields true fs ∅ = (∅, ∅).
Proof.
  induction fs as [|f fs IH]; [done|]. cbn. rewrite IH.
  by rewrite lookup_empty.
Qed.

Lemma validate_partial_empty (fs : list field) :
  validate true fs ∅ = inr ∅.
Proof.
  unfold validate. rewrite load_fields_partial_empty.
  unfold unknown_errors. rewrite map_filter_empty, fmap_empty.
  rewrite (left_id_L ∅ (∪)). by rewrite decide_True.
Qed.

Lemma replace_row_same (e : entity) (k : value) (r0 : row) (t : list row) :
  matching (pk e) k t = [r0] → replace_row e k r0 t = t.
Proof.
  intros Hone.
  assert (∀ r, r ∈ t → attr r (pk e) = k → r = r0) as Hall.
  { intros r Hin Hr.
    assert (r ∈ matching (pk e) k t) as Hm
      by (unfold matching; by apply list_elem_of_filter).
    rewrite Hone in Hm. by apply list_elem_of_singleton in Hm. }
  clear Hone. unfold replace_row.
  induction t as [|a t IH]; [done|].
  rewrite fmap_cons. f_equal.
  - case_decide as Ha; [|done]. symmetry. apply Hall; [left|done].
  - apply IH. intros r Hin. apply Hall. by right.
Qed.

Lemma replace_row_twice (e : entity) (k : value) (r : row) (t : list row) :
  attr r (pk e) = k →
  replace_row e k r (replace_row e k r t) = replace_row e k r t.
Proof.
  intros Hr. unfold replace_row. rewrite <- list_fmap_compose.
  apply list_fmap_ext. intros i a _. cbn.
  destruct (decide (attr a (pk e) = k)) as [Ha|Ha].
  - by rewrite decide_True.
  - by rewrite decide_False.
Qed.

Lemma dump_agree (fs : list field) (r1 r2 : row) :
  (∀ f, f ∈ fs → attr r1 (fname f) = attr r2 (fname f)) →
  dump fs r1 = dump fs r2.
Proof.
  intros Hagree. unfold dump. f_equal.
  apply list_fmap_ext. intros i f Hf. f_equal.
  apply Hagree. by eapply list_elem_of_lookup_2.
Qed.

Arguments replace_row : simpl never.

(** The outcome of PUT /regions/{code} when the lookup finds nothing: the
    body is loaded and the handler answers, without an add or a commit. *)
Lemma put_unknown_code_run (schema : entity -> list field) (d : database)
    (code : string) (region_json : row) :
  online d = true →
  matching "NOC" (VStr code) (regions d) = [] →
  serve (region_update schema PUT code region_json) d
  = match validate false (schema Region) region_json with
    | inl msgs => ({| status := 400; payload := JErrors msgs |}, d,
                   [OpSelect Region])
    | inr _ =>
        ({| status := 200;
            payload := message ("Region added with NOC= " +:+ code) |},
         d, [OpSelect Region])
    end.
Proof.
  intros Hon Habs.
  unfold serve, region_update, bind, try_except.
  rewrite (filter_by_pk schema Region) by done. cbn.
  rewrite Habs. cbn. rewrite load_lookup by done.
  destruct (validate false (schema Region) region_json); by destruct d.
Qed.

Section Updates.

Variable schema : entity -> list field.

(** X7: POST /regions and POST /events with a body that fails the schema
    answer 400 with the schema's messages before the session is touched: no
    add, no commit, the store unchanged, also when the store is failing. *)
Theorem post_invalid_body (d : database) (e : entity) (body : row)
    (msgs : messages) :
  validate false (schema e) body = inl msgs →
  serve (match e with
         | Region => add_region schema body
         | Event => add_event schema body
         end) d
  = ({| status := 400; payload := JErrors msgs |}, d, []).
Proof.
  intros Hval.
  destruct e; unfold serve, add_region, add_event; unfold bind at 1;
    rewrite (load_invalid _ _ _ _ _ msgs) by done; by destruct d.
Qed.

(** X8: PUT and PATCH /regions/{code} with a body that fails validation
    answer 400 with the messages and leave the store unchanged, whether the
    code is stored or not: PATCH through the registered handler, PUT through
    its own except clauses. *)
Theorem region_update_invalid_body (d : database) (m : method)
    (code : string) (region_json : row) (msgs : messages) :
  online d = true →
  (length (matching "NOC" (VStr code) (regions d)) ≤ 1)%nat →
  validate (partial_of m) (schema Region) region_json = inl msgs →
  serve (region_update schema m code region_json) d
  = ({| status := 400; payload := JErrors msgs |}, d, [OpSelect Region]).
Proof.
  intros Hon Hlen Hval.
  destruct (matching "NOC" (VStr code) (regions d)) as [|r0 [|r1 rows]]
    eqn:Hrows; [| |cbn in Hlen; lia].
  - destruct m.
    + rewrite put_unknown_code_run by done. cbn in Hval. by rewrite Hval.
    + rewrite patch_unknown_code_run by done. cbn in Hval. by rewrite Hval.
  - rewrite (region_update_stored_run schema d m code r0) by done.
    by rewrite Hval.
Qed.

(** X9: when the body of PUT on a stored region supplies every declared
    field, nothing of the old row shows: GET returns exactly the loaded
    body. *)
Theorem put_full_body_replaces (d : database) (code : string)
    (r0 region_json out : row) :
  online d = true →
  matching "NOC" (VStr code) (regions d) = [r0] →
  validate false (schema Region) region_json = inr out →
  attr out "NOC" = VStr code →
  (∀ f, f ∈ schema Region → is_Some (region_json !! fname f)) →
  let x := serve (region_update schema PUT code region_json) d in
  status (response_of x) = 200 ∧
  response_of (serve (get_region schema code) (store_of x))
  = {| status := 200; payload := JObject (dump (schema Region) out) |}.
Proof.
  intros Hon Hone Hval Hkey Hall x. unfold x.
  assert (attr (out ∪ r0) "NOC" = VStr code) as Hkey'
    by (rewrite attr_union; unfold attr in Hkey;
        destruct (out !! "NOC"); [done|discriminate]).
  rewrite (region_update_stored_run schema d PUT code r0) by done. cbn.
  rewrite Hval.
  rewrite (update_row_free Region (VStr code) (VStr code))
    by (done || by left).
  cbn. split; [done|].
  rewrite get_region_found with (r := out ∪ r0).
  - cbn. do 2 f_equal. apply dump_agree. intros f Hf.
    apply validate_inr in Hval as [Hload _].
    destruct (load_fields_complete _ _ _ _ f Hload Hf (Hall f Hf))
      as [v Hv].
    rewrite attr_union, Hv. unfold attr. by rewrite Hv.
  - by destruct d.
  - cbn. apply (matching_replace_row Region (VStr code) (VStr code) r0);
      [done|done|by left].
Qed.

(** X10: PUT and PATCH on a stored region are idempotent when the body
    keeps the region under its code: repeating the request gives the same
    answer, the same store and the same session trace. *)
Theorem region_update_idempotent (d : database) (m : method) (code : string)
    (r0 region_json out : row) :
  online d = true →
  matching "NOC" (VStr code) (regions d) = [r0] →
  validate (partial_of m) (schema Region) region_json = inr out →
  attr (out ∪ r0) "NOC" = VStr code →
  let x := serve (region_update schema m code region_json) d in
  status (response_of x) = 200 ∧
  serve (region_update schema m code region_json) (store_of x) = x.
Proof.
  intros Hon Hone Hval Hkey x. unfold x.
  rewrite (region_update_stored_run schema d m code r0) by done.
  rewrite Hval.
  rewrite (update_row_free Region (VStr code) (VStr code))
    by (done || by left).
  cbn. split; [done|].
  assert (matching "NOC" (VStr code)
            (replace_row Region (VStr code) (out ∪ r0) (regions d))
          = [out ∪ r0]) as Hone'.
  { apply (matching_replace_row Region (VStr code) (VStr code) r0);
      [done|done|by left]. }
  rewrite (region_update_stored_run schema _ m code (out ∪ r0))
    by (done || by destruct d).
  rewrite Hval.
  assert (out ∪ (out ∪ r0) = out ∪ r0) as ->.
  { by rewrite (assoc_L (∪)), (idemp_L (∪)). }
  rewrite (update_row_free Region (VStr code) (VStr code))
    by (done || by left).
  cbn. rewrite (replace_row_twice Region) by done.
  by destruct d.
Qed.

(** X11: PATCH on a stored region with the empty body passes partial
    validation, commits, answers 200 and leaves the store exactly as it
    was. *)
Theorem patch_empty_body_noop (d : database) (code : string) (r0 : row) :
  online d = true →
  matching "NOC" (VStr code) (regions d) = [r0] →
  serve (region_update schema PATCH code ∅) d
  = ({| status := 200;
        payload := message ("Region " +:+ code +:+ " updated") |},
     d, [OpSelect Region; OpAdd; OpCommit]).
Proof.
  intros Hon Hone.
  assert (attr r0 "NOC" = VStr code) as Hkey.
  { apply (matching_key _ _ (regions d)). rewrite Hone. left. }
  rewrite (region_update_stored_run schema d PATCH code r0) by done.
  cbn. rewrite validate_partial_empty, (left_id_L ∅ (∪)).
  rewrite (update_row_free Region (VStr code) (VStr code))
    by (done || by left).
  rewrite (replace_row_same Region) by done.
  by destruct d.
Qed.

(** X12: PATCH on a code that is not stored, with a body that passes partial
    validation and has no NOC key, ends in a 500: the new object has no
    primary key, the commit is refused and the store is unchanged. *)
Theorem patch_unknown_code_without_noc (d : database) (code : string)
    (region_json out : row) :
  online d = true →
  matching "NOC" (VStr code) (regions d) = [] →
  validate true (schema Region) region_json = inr out →
  region_json !! "NOC" = None →
  serve (region_update schema PATCH code region_json) d
  = ({| status := 500; payload := Html "Internal Server Error" |},
     d, [OpSelect Region; OpAdd]).
Proof.
  intros Hon Habs Hval Hnone.
  rewrite patch_unknown_code_run by done. rewrite Hval.
  assert (out !! "NOC" = None) as Hout.
  { apply not_elem_of_dom. rewrite (validate_partial_dom _ _ _ Hval).
    by apply not_elem_of_dom. }
  assert (attr out "NOC" = VNull) as Hk by (unfold attr; by rewrite Hout).
  assert (found Region out d = None) as ->
    by (unfold found; cbn; by rewrite Hk).
  cbn. by rewrite insert_row_unset.
Qed.

End Updates.

(** ** Failed requests *)

Section Atomic.

Variable schema : entity -> list field.

Lemma post_atomic (d : database) (e : entity) (body : row) :
  let x := serve (match e with
                  | Region => add_region schema body
                  | Event => add_event schema body
                  end) d in
  ¬ success (response_of x) → store_of x = d.
Proof.
  intros x. unfold x. clear x. destruct (online d) eqn:Hon.
  - destruct e; [rewrite add_region_run by done|rewrite add_event_run by done].
    all: destruct (validate false _ body) as [msgs|out]; [done|].
    all: destruct (write _ out _ _) as [[t r]|]; [|done].
    all: intros Hfail; destruct Hfail; unfold success; cbn; lia.
  - by destruct (post_offline schema d e body Hon) as (resp & tr & -> & _).
Qed.

Lemma delete_atomic (d : database) (m : mutation) :
  match m with
  | DeleteRegion _ | DeleteEvent _ => True
  | _ => False
  end →
  ¬ success (response_of (serve (view schema m) d)) →
  store_of (serve (view schema m) d) = d.
Proof.
  intros Hm. destruct m; try done; cbn; destruct (online d) eqn:Hon.
  - rewrite delete_region_run by done.
    destruct (matching "NOC" (VStr noc_code) (regions d)) as [|r0 [|r1 rows]];
      [done| |done].
    destruct (orphan (ondelete d) (VStr noc_code) (events d)) as [es|];
      [|done].
    intros Hfail. destruct Hfail. unfold success. cbn. lia.
  - unfold delete_region.
    by destruct (lookup_offline schema d Region "NOC" (VStr noc_code)
                   (λ rows, do region <- scalar_one Region rows;
                            do_ session_delete region;
                            do_ session_commit;
                            ret {| status := 200;
                                   payload := message ("Region " +:+ noc_code
                                                       +:+ " deleted") |})
                   Hon) as [tr ->].
  - rewrite delete_event_run by done.
    destruct (matching "id" (VInt event_id) (events d)) as [|r0 [|r1 rows]];
      [done| |done].
    intros Hfail. destruct Hfail. unfold success. cbn. lia.
  - unfold delete_event.
    by destruct (lookup_offline schema d Event "id" (VInt event_id)
                   (λ rows, do event <- scalar_one Event rows;
                            do_ session_delete event;
                            do_ session_commit;
                            ret {| status := 200;
                                   payload := message ("Event "
                                                       +:+ pretty event_id
                                                       +:+ " deleted") |})
                   Hon) as [tr ->].
Qed.

Lemma region_update_atomic (d : database) (m : method) (code : string)
    (region_json : row) :
  ¬ success (response_of (serve (region_update schema m code region_json) d)) →
  store_of (serve (region_update schema m code region_json) d) = d.
Proof.
  destruct (online d) eqn:Hon.
  - destruct (matching "NOC" (VStr code) (regions d)) as [|r0 [|r1 rows]]
      eqn:Hrows.
    + destruct m.
      * intros _. rewrite put_unknown_code_run by done.
        by destruct (validate false (schema Region) region_json).
      * rewrite patch_unknown_code_run by done.
        destruct (validate true (schema Region) region_json) as [msgs|out];
          [done|].
        destruct (write Region out (found Region out d) (regions d))
          as [[t r]|]; [|done].
        intros Hfail. destruct Hfail. unfold success. cbn. lia.
    + rewrite (region_update_stored_run schema d m code r0) by done.
      destruct (validate _ (schema Region) region_json) as [msgs|out];
        [done|].
      destruct (update_row Region (VStr code) (out ∪ r0) (regions d))
        as [[t r]|]; [|done].
      intros Hfail. destruct Hfail. unfold success. cbn. lia.
    + intros _.
      by rewrite (region_update_many schema d m code region_json r0 r1 rows).
  - intros _.
    by destruct (region_update_offline schema d m code region_json Hon)
      as [tr ->].
Qed.

(** X13: a POST, PUT, PATCH or DELETE on regions, or a POST or DELETE on
    events, that does not answer with a success status leaves the store as
    it was. *)
Theorem failed_mutation_changes_nothing (d : database) (m : mutation) :
  is_event_patch m = false →
  ¬ success (response_of (serve (view schema m) d)) →
  store_of (serve (view schema m) d) = d.
Proof.
  intros Hm Hfail. destruct m; try done.
  - by apply (post_atomic d Region).
  - by apply (post_atomic d Event).
  - by apply region_update_atomic.
  - by apply region_update_atomic.
  - by apply delete_atomic.
  - by apply delete_atomic.
Qed.

End Atomic.

(** ** Lookups by key on a store with unique keys *)



(** ** Instances of the properties above on a concrete store *)

Ltac evaluated := vm_compute; reflexivity.

Lemma list_endpoints_list_all_witness :
  online db0 = true ∧
  response_of (serve (get_regions Fields) db0)
  = {| status := 200;
       payload := JArray (dump (Fields Region) <$> regions db0) |} ∧
  response_of (serve (get_events Fields) db0)
  = {| status := 200;
       payload := JArray (dump (Fields Event) <$> events db0) |}.
Proof.
  split; [reflexivity|]. apply (list_endpoints_list_all Fields db0).
  reflexivity.
Defined.

Lemma post_then_get_region_witness :
  online db0 = true ∧
  validate false (Fields Region) ZZZ_json = inr ZZZ_json ∧
  attr ZZZ_json "NOC" = VStr "ZZZ" ∧
  (VStr "ZZZ" ∉ keys Region (regions db0)) ∧
  let d' := set_table Region (regions db0 ++ [ZZZ_json]) db0 in
  serve (add_region Fields ZZZ_json) db0
  = ({| status := 201;
        payload := message ("Region added with NOC= " +:+ "ZZZ") |},
     d', [OpAdd; OpCommit]) ∧
  serve (get_region Fields "ZZZ") d'
  = ({| status := 200; payload := JObject (dump (Fields Region) ZZZ_json) |},
     d', [OpSelect Region]).
Proof.
  split; [reflexivity|]. split; [evaluated|]. split; [evaluated|].
  split; [computed|].
  apply (post_then_get_region Fields db0 ZZZ_json ZZZ_json "ZZZ");
    [reflexivity|evaluated|evaluated|computed].
Defined.

Lemma post_then_get_event_witness :
  online db0 = true ∧
  validate false (Fields Event) Paris_json = inr Paris_json ∧
  attr Paris_json "id" = VNull ∧
  serve (add_event Fields Paris_json) db0
  = ({| status := 201;
        payload := message ("Event added with id= " +:+ "2") |},
     set_table Event (events db0 ++ [<["id" := VInt 2]> Paris_json]) db0,
     [OpAdd; OpCommit]).
Proof.
  split; [reflexivity|]. split; [evaluated|]. split; [evaluated|].
  destruct (post_then_get_event Fields db0 Paris_json Paris_json)
    as (_ & Hpost & _); [reflexivity|evaluated|evaluated|].
  exact Hpost.
Defined.

Lemma delete_then_get_region_witness :
  online db0 = true ∧
  matching "NOC" (VStr "FRA") (regions db0) = [FRA] ∧
  unreferenced "FRA" db0 ∧
  serve (delete_region Fields "FRA") db0
  = ({| status := 200;
        payload := message ("Region " +:+ "FRA" +:+ " deleted") |},
     set_table Region (delete_row Region (VStr "FRA") (regions db0)) db0,
     [OpSelect Region; OpDelete; OpCommit]) ∧
  status (response_of
            (serve (get_region Fields "FRA")
               (set_table Region
                  (delete_row Region (VStr "FRA") (regions db0)) db0)))
  = 404.
Proof.
  split; [reflexivity|]. split; [reflexivity|]. split; [reflexivity|].
  destruct (delete_then_get_region Fields db0 "FRA" FRA)
    as (Hdel & Hget & _); [reflexivity|reflexivity|reflexivity|].
  split; [exact Hdel | exact Hget].
Defined.

Lemma delete_then_get_event_witness :
  online db0 = true ∧
  matching "id" (VInt 1) (events db0) = [Games] ∧
  status (response_of
            (serve (get_event Fields 1)
               (set_table Event
                  (delete_row Event (VInt 1) (events db0)) db0)))
  = 404.
Proof.
  split; [reflexivity|]. split; [reflexivity|].
  destruct (delete_then_get_event Fields db0 1 Games)
    as (_ & Hget & _); [reflexivity|reflexivity|].
  exact Hget.
Defined.

Lemma post_invalid_body_witness :
  validate false (Fields Region) bad_json
  = inl {[ "region" := ["Not a valid string."];
           "NOC" := ["Missing data for required field."] ]} ∧
  serve (add_region Fields bad_json) db0
  = ({| status := 400;
        payload := JErrors {[ "region" := ["Not a valid string."];
                              "NOC" := ["Missing data for required field."] ]}
     |}, db0, []).
Proof.
  split; [evaluated|].
  apply (post_invalid_body Fields db0 Region bad_json). evaluated.
Defined.

Lemma region_update_invalid_body_witness :
  online db0 = true ∧
  (length (matching "NOC" (VStr "GBR") (regions db0)) ≤ 1)%nat ∧
  validate (partial_of PATCH) (Fields Region) bad_json
  = inl {[ "region" := ["Not a valid string."] ]} ∧
  serve (region_update Fields PATCH "GBR" bad_json) db0
  = ({| status := 400;
        payload := JErrors {[ "region" := ["Not a valid string."] ]} |},
     db0, [OpSelect Region]).
Proof.
  split; [reflexivity|]. split; [vm_compute; lia|]. split; [evaluated|].
  apply (region_update_invalid_body Fields db0 PATCH "GBR" bad_json);
    [reflexivity|vm_compute; lia|evaluated].
Defined.

Lemma put_full_body_replaces_witness :
  online db0 = true ∧
  matching "NOC" (VStr "GBR") (regions db0) = [GBR] ∧
  validate false (Fields Region) full_json = inr full_json ∧
  attr full_json "NOC" = VStr "GBR" ∧
  let x := serve (region_update Fields PUT "GBR" full_json) db0 in
  status (response_of x) = 200 ∧
  response_of (serve (get_region Fields "GBR") (store_of x))
  = {| status := 200; payload := JObject (dump (Fields Region) full_json) |}.
Proof.
  split; [reflexivity|]. split; [reflexivity|]. split; [evaluated|].
  split; [evaluated|].
  apply (put_full_body_replaces Fields db0 "GBR" GBR full_json full_json);
    [reflexivity|reflexivity|evaluated|evaluated|].
  intros f Hf. cbn in Hf.
  repeat (apply elem_of_cons in Hf as [->|Hf]; [by eexists; evaluated|]).
  by apply elem_of_nil in Hf.
Defined.

Lemma region_update_idempotent_witness :
  online db0 = true ∧
  matching "NOC" (VStr "GBR") (regions db0) = [GBR] ∧
  validate (partial_of PATCH) (Fields Region) name_json = inr name_json ∧
  attr (name_json ∪ GBR) "NOC" = VStr "GBR" ∧
  let x := serve (region_update Fields PATCH "GBR" name_json) db0 in
  status (response_of x) = 200 ∧
  serve (region_update Fields PATCH "GBR" name_json) (store_of x) = x.
Proof.
  split; [reflexivity|]. split; [reflexivity|]. split; [evaluated|].
  split; [evaluated|].
  apply (region_update_idempotent Fields db0 PATCH "GBR" GBR name_json
           name_json); [reflexivity|reflexivity|evaluated|evaluated].
Defined.

Lemma patch_empty_body_noop_witness :
  online db0 = true ∧
  matching "NOC" (VStr "GBR") (regions db0) = [GBR] ∧
  serve (region_update Fields PATCH "GBR" ∅) db0
  = ({| status := 200;
        payload := message ("Region " +:+ "GBR" +:+ " updated") |},
     db0, [OpSelect Region; OpAdd; OpCommit]).
Proof.
  split; [reflexivity|]. split; [reflexivity|].
  apply (patch_empty_body_noop Fields db0 "GBR" GBR); reflexivity.
Defined.

Lemma patch_unknown_code_without_noc_witness :
  online db0 = true ∧
  matching "NOC" (VStr "ZZZ") (regions db0) = [] ∧
  validate true (Fields Region) Zed_json = inr Zed_json ∧
  Zed_json !! "NOC" = None ∧
  serve (region_update Fields PATCH "ZZZ" Zed_json) db0
  = ({| status := 500; payload := Html "Internal Server Error" |},
     db0, [OpSelect Region; OpAdd]).
Proof.
  split; [reflexivity|]. split; [reflexivity|]. split; [evaluated|].
  split; [evaluated|].
  apply (patch_unknown_code_without_noc Fields db0 "ZZZ" Zed_json Zed_json);
    [reflexivity|reflexivity|evaluated|evaluated].
Defined.

Lemma status_500_fails (x : response * database * list op) :
  status (response_of x) = 500 → ¬ success (response_of x).
Proof. unfold success. intros ->. lia. Qed.

Lemma failed_mutation_changes_nothing_witness :
  is_event_patch (PatchRegion "GBR" rekey_json) = false ∧
  status (response_of (serve (view Fields (PatchRegion "GBR" rekey_json))
                         db0)) = 500 ∧
  ¬ success (response_of (serve (view Fields (PatchRegion "GBR" rekey_json))
                            db0)) ∧
  store_of (serve (view Fields (PatchRegion "GBR" rekey_json)) db0) = db0.
Proof.
  assert (status (response_of
                    (serve (view Fields (PatchRegion "GBR" rekey_json)) db0))
          = 500) as Hst by evaluated.
  pose proof (status_500_fails _ Hst) as Hfail.
  split; [reflexivity|]. split; [exact Hst|]. split; [exact Hfail|].
  exact (failed_mutation_changes_nothing Fields db0
           (PatchRegion "GBR" rekey_json) eq_refl Hfail).
Defined.


